(** * czds-request: the request-orchestration workflow

    A shallow embedding of [cmd/czds-request/request.go].  The program is a
    single [main] that parses flags, resolves a password, authenticates a
    CZDS client and then runs up to five workflows (terms, status, request,
    extend, cancel) against that client.

    The remote client ([github.com/lanrat/czds]) and the password sources
    ([czds.Getpass]) are external collaborators: they are a record of
    operations over an abstract world [W].  Everything the program does that
    can be observed from outside (calls with their results, lines printed on
    standard output, lines logged) is recorded, in program order, in a list
    of events. *)

From Stdlib Require Import String Ascii List Bool Arith Lia Sorted.
Import ListNotations.
Open Scope string_scope.
Open Scope list_scope.
Open Scope nat_scope.

Set Implicit Arguments.

(** ** Go library functions used by the program *)

Module strings.

(** [strings.Split(s, sep)] for a one-byte separator: the substrings of
    [s] between the occurrences of [sep], in order.  A string without
    separator, the empty string included, gives one element. *)
Fixpoint Split (s : string) (sep : ascii) : list string :=
  match s with
  | EmptyString => [EmptyString]
  | String c r =>
      if Ascii.eqb c sep then EmptyString :: Split r sep
      else match Split r sep with
           | h :: t => String c h :: t
           | [] => [String c EmptyString]
           end
  end.

(** [strings.Join(elems, sep)], the converse of [Split]. *)
Fixpoint Join (elems : list string) (sep : ascii) : string :=
  match elems with
  | [] => EmptyString
  | [x] => x
  | x :: rest => x ++ String sep (Join rest sep)
  end.

(** [strings.Count(s, sep)] for a one-byte separator. *)
Fixpoint Count (s : string) (sep : ascii) : nat :=
  match s with
  | EmptyString => 0
  | String c r => (if Ascii.eqb c sep then 1 else 0) + Count r sep
  end.

(** [strings.Contains(s, sep)] for a one-byte separator. *)
Fixpoint Contains (s : string) (sep : ascii) : bool :=
  match s with
  | EmptyString => false
  | String c r => Ascii.eqb c sep || Contains r sep
  end.

End strings.

Definition comma : ascii := ","%char.

(** Go's [len] on a string: its number of bytes. *)
Definition len (s : string) : nat := String.length s.

(** [fmt]'s [%v] of a [[]string]: the elements between brackets, separated
    by one space. *)
Definition fmt_v (l : list string) : string :=
  "[" ++ String.concat " " l ++ "]".

(** ** Data of the czds package that the program touches *)

(** A Go [error] value that is not nil, by its message. *)
Definition error := string.

Record Terms := { Version : string; Content : string }.

Record TLDStatus := { TLD : string; CurrentStatus : string }.

Record CancelRequestSubmission := { RequestID : string; TLDName : string }.

(** The command line, after [flag.Parse]. *)
Record Flags := {
  username : string;
  password : string;
  passin : string;
  verbose : bool;
  reason : string;
  printTerms : bool;
  requestTLDs : string;
  requestAll : bool;
  status : bool;
  extendTLDs : string;
  extendAll : bool;
  exclude : string;
  cancelTLDs : string;
  showVersion : bool
}.

Definition version : string := "unknown".

(** ** Observable events *)

(** Lines written to standard output. *)
Inductive Output :=
| OutVersion (v : string)
| OutTermsHeader
| OutTermsContent (content : string)
| OutTLDStatus (tld st : string)
| OutRequested (tlds : list string)
| OutExtended (tlds : list string)
| OutCanceled (tlds : list string).

Definition newline : string := String (ascii_of_nat 10) EmptyString.
Definition tab : string := String (ascii_of_nat 9) EmptyString.

(** The text of each line, as [fmt.Printf] and [fmt.Println] write it. *)
Definition render (o : Output) : string :=
  match o with
  | OutVersion v => "Version: " ++ v ++ newline
  | OutTermsHeader => "Terms and Conditions:" ++ newline
  | OutTermsContent c => c ++ newline
  | OutTLDStatus tld st => tld ++ tab ++ st ++ newline
  | OutRequested l => "Requested: " ++ fmt_v l ++ newline
  | OutExtended l => "Extended: " ++ fmt_v l ++ newline
  | OutCanceled l => "Canceled: " ++ fmt_v l ++ newline
  end.

(** Calls to the collaborators carry their arguments and what they
    returned; a Go result [(x, err)] is the pair of [x] and [Some e] or
    [None] for a nil error. *)
Inductive Event :=
| EvGetpass (src : string) (r : string * option error)
| EvNewClient (user pass : string)
| EvSetLogger
| EvAuthenticate (r : option error)
| EvGetTerms (r : Terms * option error)
| EvGetTLDStatus (r : list TLDStatus * option error)
| EvRequestAllTLDsExcept (rsn : string) (except : list string)
                         (r : list string * option error)
| EvRequestTLDs (tlds : list string) (rsn : string) (r : option error)
| EvExtendAllTLDsExcept (except : list string)
                        (r : list string * option error)
| EvExtendTLD (tld : string) (r : option error)
| EvGetZoneRequestID (zone : string) (r : string * option error)
| EvCancelRequest (req : CancelRequestSubmission) (r : option error)
| EvPrint (o : Output)
| EvLogPrintf (msg : string)
| EvLogFatal (msg : string)
| EvPrintDefaults.

(** ** The collaborators *)

Record Service (W : Type) := {
  Getpass : string -> W -> (string * option error) * W;
  NewClient : string -> string -> W -> W;
  AuthURL : string;
  SetLogger : W -> W;
  Authenticate : W -> option error * W;
  GetTerms : W -> (Terms * option error) * W;
  GetTLDStatus : W -> (list TLDStatus * option error) * W;
  RequestAllTLDsExcept :
    string -> list string -> W -> (list string * option error) * W;
  RequestTLDs : list string -> string -> W -> option error * W;
  ExtendAllTLDsExcept :
    list string -> W -> (list string * option error) * W;
  ExtendTLD : string -> W -> option error * W;
  GetZoneRequestID : string -> W -> (string * option error) * W;
  CancelRequest : CancelRequestSubmission -> W -> option error * W
}.

(** ** The monad of the program

    A computation reads and updates the world, emits events, and either
    returns a value or ends the process with an exit status ([os.Exit],
    reached directly or through [log.Fatal]). *)

Inductive Res (A : Type) :=
| Ok (a : A)
| Exit (code : nat).

Arguments Exit {A} code.

Definition M (W A : Type) := W -> list Event * W * Res A.

Definition ret {W A} (a : A) : M W A := fun w => ([], w, Ok a).

Definition bind {W A B} (m : M W A) (f : A -> M W B) : M W B :=
  fun w =>
    match m w with
    | (e1, w1, Ok a) =>
        match f a w1 with
        | (e2, w2, r) => (e1 ++ e2, w2, r)
        end
    | (e1, w1, Exit c) => (e1, w1, Exit c)
    end.

Notation "x <- m ;; k" := (bind m (fun x => k))
  (at level 61, m at next level, right associativity).
Notation "m ;;; k" := (bind m (fun _ => k))
  (at level 61, right associativity).

Definition emit {W} (e : Event) : M W unit := fun w => ([e], w, Ok tt).

Definition os_Exit {W A} (code : nat) : M W A := fun w => ([], w, Exit code).

Definition log_Printf {W} (msg : string) : M W unit := emit (EvLogPrintf msg).

(** [log.Fatal] writes the message and calls [os.Exit(1)]. *)
Definition log_Fatal {W A} (msg : string) : M W A :=
  emit (EvLogFatal msg) ;;; os_Exit 1.

Definition fmt_Print {W} (o : Output) : M W unit := emit (EvPrint o).

(** A call to a collaborator: run it on the world and record it. *)
Definition call {W R} (f : W -> R * W) (ev : R -> Event) : M W R :=
  fun w => let (r, w') := f w in ([ev r], w', Ok r).

(** A collaborator operation that only changes the world. *)
Definition effect {W} (f : W -> W) (ev : Event) : M W unit :=
  fun w => ([ev], f w, Ok tt).

Definition events {W A} (x : list Event * W * Res A) : list Event :=
  fst (fst x).
Definition result {W A} (x : list Event * W * Res A) : Res A := snd x.
Definition final {W A} (x : list Event * W * Res A) : W := snd (fst x).


(** ** The program *)

Section Program.

Variable W : Type.
Variable svc : Service W.
Variable fl : Flags.

Local Abbreviation Cmd := (M W).

(** [func v(format, ...)]: log when [-verbose] is set. *)
Definition v (msg : string) : Cmd unit :=
  if verbose fl then log_Printf msg else ret tt.

(** [func checkFlags()], after [flag.Parse]. *)
Definition checkFlags : Cmd unit :=
  (if showVersion fl
   then fmt_Print (OutVersion version) ;;; os_Exit 0
   else ret tt) ;;;
  flagError <- ret false ;;
  flagError <- (if (len (username fl) =? 0)%nat
                then log_Printf "must pass username" ;;; ret true
                else ret flagError) ;;
  flagError <- (if ((len (password fl) =? 0) && (len (passin fl) =? 0))%nat
                then log_Printf "must pass either 'password' or 'passin'" ;;;
                     ret true
                else ret flagError) ;;
  if flagError : bool
  then emit EvPrintDefaults ;;; os_Exit 1
  else ret tt.

(** [main], lines 66-73: the password. *)
Definition getPassword : Cmd string :=
  let p := password fl in
  if (len p =? 0)%nat
  then r <- call (Getpass svc (passin fl)) (EvGetpass (passin fl)) ;;
       match snd r with
       | Some err => log_Fatal ("Unable to get password from user: " ++ err)
       | None => ret (fst r)
       end
  else ret p.

(** [main], lines 75-77. *)
Definition doRequest : bool := requestAll fl || (0 <? len (requestTLDs fl))%nat.
Definition doExtend : bool := extendAll fl || (0 <? len (extendTLDs fl))%nat.
Definition doCancel : bool := (0 <? len (extendTLDs fl))%nat.

(** [main], lines 78-80. *)
Definition checkIntent : Cmd unit :=
  if negb (printTerms fl) && negb (status fl)
     && negb (doRequest || doExtend) && negb doCancel
  then log_Fatal "Nothing to do!"
  else ret tt.

(** [main], line 82. *)
Definition excludeList : list string := strings.Split (exclude fl) comma.

(** [main], lines 84-87: the client. *)
Definition newClient (p : string) : Cmd unit :=
  effect (NewClient svc (username fl) p) (EvNewClient (username fl) p) ;;;
  if verbose fl then effect (SetLogger svc) EvSetLogger else ret tt.

(** [main], lines 89-94: authentication.  Returns the variable [err],
    which the request, extend and cancel blocks assign again. *)
Definition authenticate : Cmd (option error) :=
  v ("Authenticating to " ++ AuthURL svc) ;;;
  err <- call (Authenticate svc) EvAuthenticate ;;
  match err with
  | Some e => log_Fatal e
  | None => ret err
  end.

(** [main], lines 96-105: print terms. *)
Definition termsBlock : Cmd unit :=
  if printTerms fl
  then r <- call (GetTerms svc) EvGetTerms ;;
       match snd r with
       | Some e => log_Fatal e
       | None =>
           v ("Terms Version " ++ Version (fst r)) ;;;
           fmt_Print OutTermsHeader ;;;
           fmt_Print (OutTermsContent (Content (fst r)))
       end
  else ret tt.

(** [func printTLDStatus]. *)
Definition printTLDStatus (tldStatus : TLDStatus) : Cmd unit :=
  fmt_Print (OutTLDStatus (TLD tldStatus) (CurrentStatus tldStatus)).

Fixpoint printAll (l : list TLDStatus) : Cmd unit :=
  match l with
  | [] => ret tt
  | tldStatus :: rest => printTLDStatus tldStatus ;;; printAll rest
  end.

(** [main], lines 107-116: print status. *)
Definition statusBlock : Cmd unit :=
  if status fl
  then r <- call (GetTLDStatus svc) EvGetTLDStatus ;;
       match snd r with
       | Some e => log_Fatal e
       | None => printAll (fst r)
       end
  else ret tt.

(** [main], lines 118-140: request.  [err] is the variable of [main]. *)
Definition requestBlock (err : option error) : Cmd (option error) :=
  if doRequest
  then
    (if (len (reason fl) =? 0)%nat
     then log_Fatal "Must pass a reason to request TLDs"
     else ret tt) ;;;
    res <- (if requestAll fl
            then
              v "Requesting all TLDs" ;;;
              r <- call (RequestAllTLDsExcept svc (reason fl) excludeList)
                        (EvRequestAllTLDsExcept (reason fl) excludeList) ;;
              ret (fst r, snd r)
            else
              let tlds := strings.Split (requestTLDs fl) comma in
              v ("Requesting " ++ fmt_v tlds) ;;;
              err <- call (RequestTLDs svc tlds (reason fl))
                          (EvRequestTLDs tlds (reason fl)) ;;
              ret (tlds, err)) ;;
    let requestedTLDs := fst res in
    let err := snd res in
    match err with
    | Some e => log_Fatal e
    | None =>
        (if (0 <? length requestedTLDs)%nat
         then fmt_Print (OutRequested requestedTLDs)
         else ret tt) ;;;
        ret err
    end
  else ret err.

(** The loop of lines 149-156: one [ExtendTLD] per zone, leaving at the
    first error. *)
Fixpoint extendLoop (tlds : list string) (err : option error)
  : Cmd (option error) :=
  match tlds with
  | [] => ret err
  | tld :: rest =>
      v ("Requesting extension " ++ tld) ;;;
      err <- call (ExtendTLD svc tld) (EvExtendTLD tld) ;;
      match err with
      | Some _ => ret err
      | None => extendLoop rest err
      end
  end.

(** [main], lines 141-166: extend. *)
Definition extendBlock (err : option error) : Cmd (option error) :=
  if doExtend
  then
    res <- (if extendAll fl
            then
              v "Requesting extension for all TLDs" ;;;
              r <- call (ExtendAllTLDsExcept svc excludeList)
                        (EvExtendAllTLDsExcept excludeList) ;;
              ret (fst r, snd r)
            else
              let tlds := strings.Split (extendTLDs fl) comma in
              err <- extendLoop tlds err ;;
              ret (tlds, err)) ;;
    let extendedTLDs := fst res in
    let err := snd res in
    match err with
    | Some e => log_Fatal e
    | None =>
        (if (0 <? length extendedTLDs)%nat
         then fmt_Print (OutExtended extendedTLDs)
         else ret tt) ;;;
        ret err
    end
  else ret err.

(** [func cancelRequest(zone string) error]. *)
Definition cancelRequest (zone : string) : Cmd (option error) :=
  r <- call (GetZoneRequestID svc zone) (EvGetZoneRequestID zone) ;;
  let zoneID := fst r in
  match snd r with
  | Some e => ret (Some e)
  | None =>
      let submission := {| RequestID := zoneID; TLDName := zone |} in
      err <- call (CancelRequest svc submission)
                  (EvCancelRequest submission) ;;
      match err with
      | Some e => ret (Some e)
      | None => ret None
      end
  end.

(** The loop of lines 170-177. *)
Fixpoint cancelLoop (tlds : list string) (err : option error)
  : Cmd (option error) :=
  match tlds with
  | [] => ret err
  | tld :: rest =>
      v ("Requesting cancellation " ++ tld) ;;;
      err <- cancelRequest tld ;;
      match err with
      | Some _ => ret err
      | None => cancelLoop rest err
      end
  end.

(** [main], lines 167-184: cancel. *)
Definition cancelBlock (err : option error) : Cmd unit :=
  if doCancel
  then
    let tlds := strings.Split (cancelTLDs fl) comma in
    err <- cancelLoop tlds err ;;
    match err with
    | Some e => log_Fatal e
    | None =>
        if (0 <? length tlds)%nat
        then fmt_Print (OutCanceled tlds)
        else ret tt
    end
  else ret tt.

(** [func main()]. *)
Definition main : Cmd unit :=
  checkFlags ;;;
  p <- getPassword ;;
  checkIntent ;;;
  newClient p ;;;
  err <- authenticate ;;
  termsBlock ;;;
  statusBlock ;;;
  err <- requestBlock err ;;
  err <- extendBlock err ;;
  cancelBlock err.

End Program.

(** ** A call-counting stub of the collaborators

    The world is the number of calls made so far.  The stub is configured
    by what fails: the password source, the authentication, and, per zone,
    the extend call, the request-ID lookup and the cancel call. *)

Module Stub.

Record Config := {
  getpass_fails : bool;
  auth_fails : bool;
  request_fails : bool;
  extend_fails : string -> bool;
  lookup_fails : string -> bool;
  cancel_fails : string -> bool
}.

Definition all_good : Config :=
  {| getpass_fails := false; auth_fails := false; request_fails := false;
     extend_fails := fun _ => false; lookup_fails := fun _ => false;
     cancel_fails := fun _ => false |}.

Definition answer (fails : bool) (what : string) : option error :=
  if fails then Some (what ++ " failed")%string else None.

Definition service (c : Config) : Service nat :=
  {| Getpass := fun src n => (("secret", answer (getpass_fails c) "getpass"), n);
     NewClient := fun _ _ n => n;
     AuthURL := "https://account-api.icann.org/api/authenticate";
     SetLogger := fun n => n;
     Authenticate := fun n => (answer (auth_fails c) "authenticate", S n);
     GetTerms := fun n =>
       (({| Version := "1"; Content := "terms" |}, None), S n);
     GetTLDStatus := fun n =>
       (([{| TLD := "com"; CurrentStatus := "approved" |};
          {| TLD := "net"; CurrentStatus := "pending" |}], None), S n);
     RequestAllTLDsExcept := fun _ _ n =>
       ((["com"], answer (request_fails c) "request"), S n);
     RequestTLDs := fun _ _ n => (answer (request_fails c) "request", S n);
     ExtendAllTLDsExcept := fun _ n => ((["net"], None), S n);
     ExtendTLD := fun z n => (answer (extend_fails c z) "extend", S n);
     GetZoneRequestID := fun z n =>
       ((("id-" ++ z)%string, answer (lookup_fails c z) "lookup"), S n);
     CancelRequest := fun r n =>
       (answer (cancel_fails c (TLDName r)) "cancel", S n) |}.

(** A command line with credentials and nothing else. *)
Definition flags0 : Flags :=
  {| username := "user"; password := "pw"; passin := "";
     verbose := false; reason := ""; printTerms := false;
     requestTLDs := ""; requestAll := false; status := false;
     extendTLDs := ""; extendAll := false; exclude := "";
     cancelTLDs := ""; showVersion := false |}.

Definition with_extend (s : string) (f : Flags) : Flags :=
  {| username := username f; password := password f; passin := passin f;
     verbose := verbose f; reason := reason f; printTerms := printTerms f;
     requestTLDs := requestTLDs f; requestAll := requestAll f;
     status := status f; extendTLDs := s; extendAll := extendAll f;
     exclude := exclude f; cancelTLDs := cancelTLDs f;
     showVersion := showVersion f |}.

Definition with_cancel (s : string) (f : Flags) : Flags :=
  {| username := username f; password := password f; passin := passin f;
     verbose := verbose f; reason := reason f; printTerms := printTerms f;
     requestTLDs := requestTLDs f; requestAll := requestAll f;
     status := status f; extendTLDs := extendTLDs f;
     extendAll := extendAll f; exclude := exclude f; cancelTLDs := s;
     showVersion := showVersion f |}.

Definition with_request (s rsn : string) (f : Flags) : Flags :=
  {| username := username f; password := password f; passin := passin f;
     verbose := verbose f; reason := rsn; printTerms := printTerms f;
     requestTLDs := s; requestAll := requestAll f;
     status := status f; extendTLDs := extendTLDs f;
     extendAll := extendAll f; exclude := exclude f;
     cancelTLDs := cancelTLDs f; showVersion := showVersion f |}.

Definition with_terms_status (t s : bool) (f : Flags) : Flags :=
  {| username := username f; password := password f; passin := passin f;
     verbose := verbose f; reason := reason f; printTerms := t;
     requestTLDs := requestTLDs f; requestAll := requestAll f;
     status := s; extendTLDs := extendTLDs f;
     extendAll := extendAll f; exclude := exclude f;
     cancelTLDs := cancelTLDs f; showVersion := showVersion f |}.

Definition with_bulk (rq ex : bool) (rsn excl : string) (f : Flags) : Flags :=
  {| username := username f; password := password f; passin := passin f;
     verbose := verbose f; reason := rsn; printTerms := printTerms f;
     requestTLDs := requestTLDs f; requestAll := rq;
     status := status f; extendTLDs := extendTLDs f;
     extendAll := ex; exclude := excl;
     cancelTLDs := cancelTLDs f; showVersion := showVersion f |}.

Definition with_password (pw src : string) (f : Flags) : Flags :=
  {| username := username f; password := pw; passin := src;
     verbose := verbose f; reason := reason f; printTerms := printTerms f;
     requestTLDs := requestTLDs f; requestAll := requestAll f;
     status := status f; extendTLDs := extendTLDs f;
     extendAll := extendAll f; exclude := exclude f;
     cancelTLDs := cancelTLDs f; showVersion := showVersion f |}.

Definition run (c : Config) (f : Flags) := main (service c) f 0.

End Stub.

(** Stubs and command lines of the examples. *)
Module Cases.
Import Stub.

(** The extend call fails on zone b, the lookup on zone x. *)
Definition fail_b_x : Config :=
  {| getpass_fails := false; auth_fails := false; request_fails := false;
     extend_fails := fun z => String.eqb z "b";
     lookup_fails := fun z => String.eqb z "x";
     cancel_fails := fun _ => false |}.

Definition fail_auth : Config :=
  {| getpass_fails := false; auth_fails := true; request_fails := false;
     extend_fails := fun _ => false; lookup_fails := fun _ => false;
     cancel_fails := fun _ => false |}.

Definition fail_getpass : Config :=
  {| getpass_fails := true; auth_fails := false; request_fails := false;
     extend_fails := fun _ => false; lookup_fails := fun _ => false;
     cancel_fails := fun _ => false |}.

Definition fail_request : Config :=
  {| getpass_fails := false; auth_fails := false; request_fails := true;
     extend_fails := fun _ => false; lookup_fails := fun _ => false;
     cancel_fails := fun _ => false |}.

(** -cancel a,b -terms *)
Definition cancel_ab : Flags :=
  with_cancel "a,b" (with_terms_status true false flags0).
(** -extend e *)
Definition extend_e : Flags := with_extend "e" flags0.
(** -extend a,b,c *)
Definition extend_abc : Flags := with_extend "a,b,c" flags0.
(** -extend e -cancel x,y *)
Definition cancel_xy : Flags := with_cancel "x,y" (with_extend "e" flags0).
(** -request-all, no -reason *)
Definition request_all_no_reason : Flags :=
  with_bulk true false "" "" flags0.
(** -terms -status -request-all -extend-all -reason r *)
Definition everything : Flags :=
  with_bulk true true "r" "" (with_terms_status true true flags0).
(** -terms -status -request-all -extend e -cancel x, no -reason *)
Definition all_intents_no_reason : Flags :=
  with_cancel "x" (with_extend "e"
    (with_bulk true false "" "" (with_terms_status true true flags0))).
(** -request a,,a -reason r -extend a,b,c *)
Definition request_dups : Flags :=
  with_request "a,,a" "r" (with_extend "a,b,c" flags0).
(** -passin env:CZDS -status, no -password *)
Definition passin_only : Flags :=
  with_password "" "env:CZDS" (with_terms_status false true flags0).
End Cases.

(** ** Reading a run *)

(** Calls that reach the remote service through the session client. *)
Definition is_remote (e : Event) : bool :=
  match e with
  | EvAuthenticate _ | EvGetTerms _ | EvGetTLDStatus _
  | EvRequestAllTLDsExcept _ _ _ | EvRequestTLDs _ _ _
  | EvExtendAllTLDsExcept _ _ | EvExtendTLD _ _
  | EvGetZoneRequestID _ _ | EvCancelRequest _ _ => true
  | _ => false
  end.

(** The part of the program an event belongs to: 0 for the set-up before
    authentication, 1 for authentication, then 2 to 6 for the terms, status,
    request, extend and cancel workflows.  Log lines carry no stage. *)
Definition stage (e : Event) : option nat :=
  match e with
  | EvGetpass _ _ | EvNewClient _ _ | EvSetLogger | EvPrintDefaults
  | EvPrint (OutVersion _) => Some 0
  | EvAuthenticate _ => Some 1
  | EvGetTerms _ | EvPrint OutTermsHeader | EvPrint (OutTermsContent _) =>
      Some 2
  | EvGetTLDStatus _ | EvPrint (OutTLDStatus _ _) => Some 3
  | EvRequestAllTLDsExcept _ _ _ | EvRequestTLDs _ _ _
  | EvPrint (OutRequested _) => Some 4
  | EvExtendAllTLDsExcept _ _ | EvExtendTLD _ _
  | EvPrint (OutExtended _) => Some 5
  | EvGetZoneRequestID _ _ | EvCancelRequest _ _
  | EvPrint (OutCanceled _) => Some 6
  | EvLogPrintf _ | EvLogFatal _ => None
  end.

(** The staged events of a run, by their stage alone. *)
Definition stages (evs : list Event) : list nat :=
  flat_map (fun e => match stage e with Some j => [j] | None => [] end) evs.

(** Every staged event of [evs] is of stage [k]. *)
Definition in_stage (k : nat) (evs : list Event) : Prop :=
  Forall (fun e => forall j, stage e = Some j -> j = k) evs.

Definition remote_calls (evs : list Event) : list Event :=
  filter is_remote evs.

(** The request calls, bulk or explicit, and the lists reported as
    requested. *)
Definition request_calls (evs : list Event) : list Event :=
  filter (fun e => match e with
                   | EvRequestAllTLDsExcept _ _ _ | EvRequestTLDs _ _ _ => true
                   | _ => false
                   end) evs.

Definition requested (evs : list Event) : list (list string) :=
  flat_map (fun e => match e with
                     | EvPrint (OutRequested l) => [l]
                     | _ => []
                     end) evs.

(** The per-zone extend calls, with their results, and the lists reported
    as extended. *)
Definition extend_calls (evs : list Event) : list (string * option error) :=
  flat_map (fun e => match e with
                     | EvExtendTLD z r => [(z, r)]
                     | _ => []
                     end) evs.

Definition extended (evs : list Event) : list (list string) :=
  flat_map (fun e => match e with
                     | EvPrint (OutExtended l) => [l]
                     | _ => []
                     end) evs.

(** The calls of the cancel workflow: lookups and cancellations. *)
Definition cancel_calls (evs : list Event) : list Event :=
  filter (fun e => match e with
                   | EvGetZoneRequestID _ _ | EvCancelRequest _ _ => true
                   | _ => false
                   end) evs.

(** The zones whose request identifier was looked up, in order. *)
Definition lookup_zones (evs : list Event) : list string :=
  flat_map (fun e => match e with
                     | EvGetZoneRequestID z _ => [z]
                     | _ => []
                     end) evs.

(** What a zone whose cancellation went through leaves in the run: the
    lookup, then the cancel call carrying the identifier it returned. *)
Definition cancelled_ok (zi : string * string) : list Event :=
  [EvGetZoneRequestID (fst zi) (snd zi, None);
   EvCancelRequest {| RequestID := snd zi; TLDName := fst zi |} None].

(** The exclusion list of a bulk call. *)
Definition bulk_exclusions (e : Event) : option (list string) :=
  match e with
  | EvRequestAllTLDsExcept _ ex _ => Some ex
  | EvExtendAllTLDsExcept ex _ => Some ex
  | _ => None
  end.

(** The remote calls that [main] makes before the request workflow: the
    authentication, and the terms and status calls when asked for. *)
Definition before_request (fl : Flags) (e : Event) : Prop :=
  match e with
  | EvAuthenticate _ => True
  | EvGetTerms _ => printTerms fl = true
  | EvGetTLDStatus _ => status fl = true
  | _ => False
  end.

(** ** Statements about runs

    [sat m P]: from every world, the events and the result of [m] satisfy
    [P]. *)

Definition sat {W A} (m : M W A) (P : list Event -> Res A -> Prop) : Prop :=
  forall w, P (events (m w)) (result (m w)).

(** The log line of [v], when there is one. *)
Definition vlog (fl : Flags) (msg : string) : list Event :=
  if verbose fl then [EvLogPrintf msg] else [].

(** ** Further readings of a run *)

(** A remote call that returned an error. *)
Definition failed (e : Event) : bool :=
  match e with
  | EvAuthenticate (Some _) | EvGetTerms (_, Some _)
  | EvGetTLDStatus (_, Some _) | EvRequestAllTLDsExcept _ _ (_, Some _)
  | EvRequestTLDs _ _ (Some _) | EvExtendAllTLDsExcept _ (_, Some _)
  | EvExtendTLD _ (Some _) | EvGetZoneRequestID _ (_, Some _)
  | EvCancelRequest _ (Some _) => true
  | _ => false
  end.

(** The events after which the process ends, with the exit status that
    follows them: a fatal log line and the usage text are followed by
    [os.Exit(1)], the version line by [os.Exit(0)]. *)
Definition exit_of (e : Event) : option nat :=
  match e with
  | EvLogFatal _ | EvPrintDefaults => Some 1
  | EvPrint (OutVersion _) => Some 0
  | _ => None
  end.

(** The exit status a result stands for, when the process was ended. *)
Definition code {A} (r : Res A) : option nat :=
  match r with
  | Ok _ => None
  | Exit c => Some c
  end.

Definition same_code (a b : option nat) : bool :=
  match a, b with
  | None, None => true
  | Some x, Some y => x =? y
  | _, _ => false
  end.

(** [well_ended evs c]: no event of [evs] but the last ends the process,
    and the last one does so, with status [c], exactly when [c] is given. *)
Fixpoint well_ended (evs : list Event) (c : option nat) : bool :=
  match evs with
  | [] => same_code None c
  | [x] => same_code (exit_of x) c
  | x :: rest => same_code (exit_of x) None && well_ended rest c
  end.

(** [failures_end l c]: no call of [l] but the last failed, and when the
    last one failed the exit status is 1. *)
Fixpoint failures_end (l : list Event) (c : option nat) : bool :=
  match l with
  | [] => true
  | [x] => if failed x then same_code c (Some 1) else true
  | x :: rest => negb (failed x) && failures_end rest c
  end.

Definition tidy {A} (evs : list Event) (r : Res A) : Prop :=
  well_ended evs (code r) = true /\
  failures_end (remote_calls evs) (code r) = true.

(** The remote calls of one stage, and the lines printed at one stage. *)
Definition calls_of (k : nat) (evs : list Event) : list Event :=
  filter (fun e => is_remote e &&
                   match stage e with Some j => j =? k | None => false end)
         evs.

Definition printed (k : nat) (evs : list Event) : list Output :=
  flat_map (fun e => match e with
                     | EvPrint o =>
                         match stage e with
                         | Some j => if j =? k then [o] else []
                         | None => []
                         end
                     | _ => []
                     end) evs.

(** The line of [printTLDStatus]. *)
Definition status_line (t : TLDStatus) : Output :=
  OutTLDStatus (TLD t) (CurrentStatus t).

(** The condition of line 78 of [main]. *)
Definition nothing_to_do (fl : Flags) : bool :=
  negb (printTerms fl) && negb (status fl)
  && negb (doRequest fl || doExtend fl) && negb (doCancel fl).

(** The two complaints of [checkFlags], in the order it makes them. *)
Definition flag_complaints (fl : Flags) : list Event :=
  (if len (username fl) =? 0
   then [EvLogPrintf "must pass username"] else []) ++
  (if (len (password fl) =? 0) && (len (passin fl) =? 0)
   then [EvLogPrintf "must pass either 'password' or 'passin'"] else []).

(** Further command lines and stubs of the examples. *)
Module MoreCases.
Import Stub.

(** -version, with everything else *)
Definition version_and_more : Flags :=
  {| username := ""; password := ""; passin := "";
     verbose := true; reason := "r"; printTerms := true;
     requestTLDs := "a"; requestAll := true; status := true;
     extendTLDs := "b"; extendAll := false; exclude := "";
     cancelTLDs := "c"; showVersion := true |}.

(** -status, neither user nor password *)
Definition no_credentials : Flags :=
  {| username := ""; password := ""; passin := "";
     verbose := false; reason := ""; printTerms := false;
     requestTLDs := ""; requestAll := false; status := true;
     extendTLDs := ""; extendAll := false; exclude := "";
     cancelTLDs := ""; showVersion := false |}.

(** -cancel a,b and nothing else *)
Definition cancel_only : Flags := with_cancel "a,b" flags0.

(** -request-all -request a,b -exclude x,y -reason r *)
Definition bulk_and_list : Flags :=
  with_request "a,b" "r" (with_bulk true false "r" "x,y" flags0).

(** -extend-all -extend a,b *)
Definition extend_bulk_and_list : Flags :=
  with_extend "a,b" (with_bulk false true "" "" flags0).

(** -extend a,b,a -verbose off *)
Definition extend_aba : Flags := with_extend "a,b,a" flags0.

(** The cancel call fails on zone y. *)
Definition fail_cancel_y : Config :=
  {| getpass_fails := false; auth_fails := false; request_fails := false;
     extend_fails := fun _ => false; lookup_fails := fun _ => false;
     cancel_fails := fun z => String.eqb z "y" |}.
End MoreCases.

(** ** Verbosity *)

(** The command line with [-verbose] set or cleared. *)
Definition set_verbose (b : bool) (fl : Flags) : Flags :=
  {| username := username fl; password := password fl; passin := passin fl;
     verbose := b; reason := reason fl; printTerms := printTerms fl;
     requestTLDs := requestTLDs fl; requestAll := requestAll fl;
     status := status fl; extendTLDs := extendTLDs fl;
     extendAll := extendAll fl; exclude := exclude fl;
     cancelTLDs := cancelTLDs fl; showVersion := showVersion fl |}.

(** Log lines of [log.Printf] and the setting of the client's logger. *)
Definition chatter (e : Event) : bool :=
  match e with
  | EvLogPrintf _ | EvSetLogger => true
  | _ => false
  end.

Definition without_chatter (evs : list Event) : list Event :=
  filter (fun e => negb (chatter e)) evs.

(** Two computations that differ by chatter only. *)
Definition same_but_chatter {W A} (m1 m2 : M W A) : Prop :=
  forall w,
    without_chatter (events (m1 w)) = without_chatter (events (m2 w)) /\
    final (m1 w) = final (m2 w) /\
    result (m1 w) = result (m2 w).

(** What may be logged without [-verbose]: the complaints of [checkFlags];
    the client's logger is not set. *)
Definition calm (fl : Flags) (e : Event) : Prop :=
  chatter e = true -> In e (flag_complaints fl).

(** * Properties *)

(** ** [strings.Split] *)

Lemma Split_nonempty (s : string) (c : ascii) : strings.Split s c <> [].
Proof.
  destruct s as [|a r]; simpl; [discriminate|].
  destruct (Ascii.eqb a c); [discriminate|].
  destruct (strings.Split r c); discriminate.
Qed.

Lemma Split_length_pos (s : string) (c : ascii) :
  (0 <? length (strings.Split s c)) = true.
Proof.
  pose proof (Split_nonempty s c) as H.
  destruct (strings.Split s c); [congruence | reflexivity].
Qed.

Lemma Join_Split (s : string) (c : ascii) :
  strings.Join (strings.Split s c) c = s.
Proof.
  induction s as [|a r IH]; simpl; [reflexivity|].
  destruct (Ascii.eqb a c) eqn:E.
  - apply Ascii.eqb_eq in E; subst a.
    pose proof (Split_nonempty r c) as Hne.
    destruct (strings.Split r c) as [|h t] eqn:Hs; [congruence|].
    change (strings.Join (EmptyString :: h :: t) c)
      with (String c (strings.Join (h :: t) c)).
    now rewrite IH.
  - pose proof (Split_nonempty r c) as Hne.
    destruct (strings.Split r c) as [|h t] eqn:Hs; [congruence|].
    destruct t as [|h' t'].
    + simpl in *. now rewrite IH.
    + change (strings.Join (String a h :: h' :: t') c)
        with (String a (h ++ String c (strings.Join (h' :: t') c)))%string.
      change (strings.Join (h :: h' :: t') c)
        with (h ++ String c (strings.Join (h' :: t') c))%string in IH.
      now rewrite IH.
Qed.

Lemma Split_length (s : string) (c : ascii) :
  length (strings.Split s c) = S (strings.Count s c).
Proof.
  induction s as [|a r IH]; simpl; [reflexivity|].
  pose proof (Split_nonempty r c) as Hne.
  destruct (Ascii.eqb a c); simpl.
  - now rewrite IH.
  - destruct (strings.Split r c) as [|h t]; [congruence|].
    simpl in *. exact IH.
Qed.

Lemma Split_tokens (s : string) (c : ascii) :
  Forall (fun t => strings.Contains t c = false) (strings.Split s c).
Proof.
  induction s as [|a r IH]; simpl.
  - constructor; [reflexivity | constructor].
  - destruct (Ascii.eqb a c) eqn:E.
    + constructor; [reflexivity | exact IH].
    + destruct (strings.Split r c) as [|h t].
      * constructor; [simpl; now rewrite E | constructor].
      * inversion IH; subst.
        constructor; [simpl; now rewrite E | assumption].
Qed.

(** ** Lists of events *)

Lemma in_stage_nil k : in_stage k [].
Proof. constructor. Qed.

Lemma in_stage_app k l1 l2 :
  in_stage k l1 -> in_stage k l2 -> in_stage k (l1 ++ l2).
Proof. unfold in_stage. intros. apply Forall_app. now split. Qed.

Lemma in_stage_cons k e l :
  (forall j, stage e = Some j -> j = k) -> in_stage k l -> in_stage k (e :: l).
Proof. unfold in_stage. intros. now constructor. Qed.

Lemma stages_app l1 l2 : stages (l1 ++ l2) = stages l1 ++ stages l2.
Proof. unfold stages. apply flat_map_app. Qed.

Lemma in_stage_stages k evs : in_stage k evs -> Forall (eq k) (stages evs).
Proof.
  induction 1 as [|e l He _ IH]; simpl; [constructor|].
  destruct (stage e) as [j|] eqn:E; simpl; [|exact IH].
  constructor; [symmetry; now apply He | exact IH].
Qed.

Lemma in_stage_In k evs e j :
  in_stage k evs -> In e evs -> stage e = Some j -> j = k.
Proof.
  unfold in_stage. rewrite Forall_forall. intros H Hin. now apply H.
Qed.

(** A filter that selects events of one stage finds nothing in a block of
    another stage. *)
Lemma filter_other_stage (f : Event -> bool) k j evs :
  (forall e, f e = true -> stage e = Some j) -> j <> k ->
  in_stage k evs -> filter f evs = [].
Proof.
  intros Hf Hjk. induction 1 as [|e l He _ IH]; simpl; [reflexivity|].
  destruct (f e) eqn:E; [|exact IH].
  apply Hf in E. apply He in E. congruence.
Qed.

Lemma flat_map_other_stage {B} (f : Event -> list B) k j evs :
  (forall e, f e <> [] -> stage e = Some j) -> j <> k ->
  in_stage k evs -> flat_map f evs = [].
Proof.
  intros Hf Hjk. induction 1 as [|e l He _ IH]; simpl; [reflexivity|].
  rewrite IH. destruct (f e) eqn:E; [reflexivity|].
  assert (stage e = Some j) as Hs by (apply Hf; congruence).
  apply He in Hs. congruence.
Qed.

Lemma remote_calls_app l1 l2 :
  remote_calls (l1 ++ l2) = remote_calls l1 ++ remote_calls l2.
Proof. apply filter_app. Qed.

Lemma request_calls_app l1 l2 :
  request_calls (l1 ++ l2) = request_calls l1 ++ request_calls l2.
Proof. apply filter_app. Qed.

Lemma cancel_calls_app l1 l2 :
  cancel_calls (l1 ++ l2) = cancel_calls l1 ++ cancel_calls l2.
Proof. apply filter_app. Qed.

Lemma requested_app l1 l2 : requested (l1 ++ l2) = requested l1 ++ requested l2.
Proof. apply flat_map_app. Qed.

Lemma extend_calls_app l1 l2 :
  extend_calls (l1 ++ l2) = extend_calls l1 ++ extend_calls l2.
Proof. apply flat_map_app. Qed.

Lemma extended_app l1 l2 : extended (l1 ++ l2) = extended l1 ++ extended l2.
Proof. apply flat_map_app. Qed.

Create Rewrite HintDb runs.

#[global] Hint Rewrite remote_calls_app request_calls_app cancel_calls_app
  requested_app extend_calls_app extended_app stages_app app_nil_r : runs.

(** Projections of a block of another stage are empty. *)
Lemma remote_calls_setup evs : in_stage 0 evs -> remote_calls evs = [].
Proof.
  induction 1 as [|e l He _ IH]; simpl; [reflexivity|].
  destruct (is_remote e) eqn:E; [|exact IH].
  destruct e; simpl in E; try discriminate;
    match goal with
    | H : forall j, stage ?e = Some j -> j = 0 |- _ =>
        specialize (H _ eq_refl); discriminate H
    end.
Qed.

Lemma request_calls_other k evs :
  in_stage k evs -> k <> 4 -> request_calls evs = [].
Proof.
  intros H Hk. apply (@filter_other_stage _ k 4 evs); auto.
  intros e; destruct e; simpl; congruence.
Qed.

Lemma requested_other k evs :
  in_stage k evs -> k <> 4 -> requested evs = [].
Proof.
  intros H Hk. apply (@flat_map_other_stage _ _ k 4 evs); auto.
  intros e; destruct e as [| | | | | | | | | | | |o| | |]; simpl; try congruence.
  destruct o; simpl; congruence.
Qed.

Lemma extend_calls_other k evs :
  in_stage k evs -> k <> 5 -> extend_calls evs = [].
Proof.
  intros H Hk. apply (@flat_map_other_stage _ _ k 5 evs); auto.
  intros e; destruct e; simpl; congruence.
Qed.

Lemma extended_other k evs :
  in_stage k evs -> k <> 5 -> extended evs = [].
Proof.
  intros H Hk. apply (@flat_map_other_stage _ _ k 5 evs); auto.
  intros e; destruct e as [| | | | | | | | | | | |o| | |]; simpl; try congruence.
  destruct o; simpl; congruence.
Qed.

Lemma cancel_calls_other k evs :
  in_stage k evs -> k <> 6 -> cancel_calls evs = [].
Proof.
  intros H Hk. apply (@filter_other_stage _ k 6 evs); auto.
  intros e; destruct e; simpl; congruence.
Qed.

(** Drops from the goal the projections of the blocks of other stages. *)
Ltac drop_others :=
  autorewrite with runs;
  repeat match goal with
    | H : in_stage ?k ?e |- context [request_calls ?e] =>
        rewrite (@request_calls_other k e H) by discriminate
    | H : in_stage ?k ?e |- context [requested ?e] =>
        rewrite (@requested_other k e H) by discriminate
    | H : in_stage ?k ?e |- context [extend_calls ?e] =>
        rewrite (@extend_calls_other k e H) by discriminate
    | H : in_stage ?k ?e |- context [extended ?e] =>
        rewrite (@extended_other k e H) by discriminate
    | H : in_stage ?k ?e |- context [cancel_calls ?e] =>
        rewrite (@cancel_calls_other k e H) by discriminate
    | H : in_stage 0 ?e |- context [remote_calls ?e] =>
        rewrite (@remote_calls_setup e H)
    end;
  simpl app; rewrite ?app_nil_r.

(** ** Rules for [sat] *)

Section Rules.

Variable W : Type.

Lemma sat_ret {A} (a : A) (P : list Event -> Res A -> Prop) :
  P [] (Ok a) -> sat (@ret W A a) P.
Proof. intros H w. exact H. Qed.

Lemma sat_bind {A B} (m : M W A) (f : A -> M W B) P :
  sat m (fun e1 r =>
           match r with
           | Ok a => sat (f a) (fun e2 r2 => P (e1 ++ e2) r2)
           | Exit c => P e1 (Exit c)
           end) ->
  sat (bind m f) P.
Proof.
  intros H w. specialize (H w). unfold bind, events, result in *.
  destruct (m w) as [[e1 w1] [a|c]]; simpl in *; [|exact H].
  specialize (H w1). destruct (f a w1) as [[e2 w2] r2]. exact H.
Qed.

Lemma sat_emit (e : Event) P : P [e] (Ok tt) -> sat (@emit W e) P.
Proof. intros H w. exact H. Qed.

Lemma sat_exit {A} (c : nat) (P : list Event -> Res A -> Prop) :
  P [] (Exit c) -> sat (@os_Exit W A c) P.
Proof. intros H w. exact H. Qed.

Lemma sat_fatal {A} (msg : string) (P : list Event -> Res A -> Prop) :
  P [EvLogFatal msg] (Exit 1) -> sat (@log_Fatal W A msg) P.
Proof. intros H w. exact H. Qed.

Lemma sat_call {R} (f : W -> R * W) (ev : R -> Event) P :
  (forall r, P [ev r] (Ok r)) -> sat (call f ev) P.
Proof.
  intros H w. unfold call, events, result.
  destruct (f w) as [r w']. apply H.
Qed.

Lemma sat_effect (f : W -> W) (ev : Event) P :
  P [ev] (Ok tt) -> sat (effect f ev) P.
Proof. intros H w. exact H. Qed.

Lemma sat_conseq {A} (m : M W A) (Q P : list Event -> Res A -> Prop) :
  sat m Q -> (forall evs r, Q evs r -> P evs r) -> sat m P.
Proof. intros H HQ w. apply HQ, H. Qed.

Lemma sat_v (fl : Flags) (msg : string) P :
  P (vlog fl msg) (Ok tt) -> sat (@v W fl msg) P.
Proof.
  unfold v, vlog. intros H w. destruct (verbose fl); exact H.
Qed.

End Rules.

(** One step of a block: the rule for the command at the head. *)
Ltac sat_step :=
  match goal with
  | |- sat (bind _ _) _ => apply sat_bind
  | |- sat (ret _) _ => apply sat_ret
  | |- sat (v _ _) _ => apply sat_v
  | |- sat (emit _) _ => apply sat_emit
  | |- sat (fmt_Print _) _ => apply sat_emit
  | |- sat (log_Printf _) _ => apply sat_emit
  | |- sat (os_Exit _) _ => apply sat_exit
  | |- sat (log_Fatal _) _ => apply sat_fatal
  | |- sat (call _ _) _ => apply sat_call; intros
  | |- sat (effect _ _) _ => apply sat_effect
  | |- sat (if ?b then _ else _) _ => destruct b eqn:?
  | |- sat (match ?x with _ => _ end) _ => destruct x eqn:?
  end.

Ltac sat_run := repeat (sat_step; cbv beta iota).

Ltac stage_tac :=
  unfold vlog;
  repeat match goal with
    | |- context [if ?b then _ else _] => destruct b
    end;
  simpl;
  repeat first
    [ apply in_stage_nil
    | apply in_stage_cons; [simpl; intros ? ?; congruence|] ].

Lemma len_0 (s : string) : (len s =? 0) = true -> s = EmptyString.
Proof. destruct s; simpl; [reflexivity | discriminate]. Qed.


Section Blocks.

Variable W : Type.
Variable svc : Service W.
Variable fl : Flags.

Lemma checkFlags_spec :
  sat (@checkFlags W fl)
      (fun evs r =>
         in_stage 0 evs /\
         (forall c, r = Exit c -> showVersion fl = false -> c = 1) /\
         (forall u p, ~ In (EvNewClient u p) evs) /\
         (forall src x, ~ In (EvGetpass src x) evs)).
Proof.
  unfold checkFlags. sat_run;
    (split; [stage_tac|]); (split; [intros; congruence|]);
    split; simpl; intros ? ? H; intuition congruence.
Qed.


Lemma getPassword_spec :
  sat (getPassword svc fl)
      (fun evs r =>
         in_stage 0 evs /\
         (forall c, r = Exit c -> c = 1) /\
         (forall u p, ~ In (EvNewClient u p) evs) /\
         (forall src x, In (EvGetpass src x) evs ->
            password fl = EmptyString /\ src = passin fl /\
            (forall e, snd x = Some e -> r = Exit 1))).
Proof.
  unfold getPassword. sat_run;
    (split; [stage_tac|]); (split; [intros; congruence|]);
    (split; [simpl; intros ? ? H; intuition congruence|]);
    simpl; intros src x H.
  - destruct H as [H|[H|[]]]; [|discriminate].
    inversion H; subst. repeat split; auto using len_0.
  - destruct H as [H|[]]. inversion H; subst.
    repeat split; auto using len_0. intros; congruence.
  - destruct H.
Qed.

Lemma checkIntent_spec :
  sat (@checkIntent W fl)
      (fun evs r =>
         in_stage 0 evs /\
         (forall c, r = Exit c -> c = 1) /\
         (forall u p, ~ In (EvNewClient u p) evs) /\
         (forall src x, ~ In (EvGetpass src x) evs)).
Proof.
  unfold checkIntent. sat_run;
    (split; [stage_tac|]); (split; [intros; congruence|]);
    split; simpl; intros ? ? H; intuition congruence.
Qed.

Lemma newClient_spec p :
  sat (newClient svc fl p)
      (fun evs r =>
         in_stage 0 evs /\ r = Ok tt /\
         (forall src x, ~ In (EvGetpass src x) evs)).
Proof.
  unfold newClient. sat_run;
    (split; [stage_tac|]); (split; [reflexivity|]);
    simpl; intros ? ? H; intuition congruence.
Qed.

Lemma authenticate_spec :
  sat (authenticate svc fl)
      (fun evs r =>
         in_stage 1 evs /\
         exists a, remote_calls evs = [EvAuthenticate a] /\
                   match a with
                   | Some _ => r = Exit 1
                   | None => r = Ok None
                   end).
Proof.
  unfold authenticate. sat_run; (split; [stage_tac|]).
  - exists (Some e). split; [|reflexivity].
    unfold vlog; destruct (verbose fl); reflexivity.
  - exists None. split; [|reflexivity].
    unfold vlog; destruct (verbose fl); reflexivity.
Qed.

Lemma termsBlock_spec :
  sat (termsBlock svc fl)
      (fun evs r =>
         in_stage 2 evs /\
         (forall c, r = Exit c -> c = 1) /\
         (printTerms fl = false -> evs = [])).
Proof.
  unfold termsBlock. sat_run;
    (split; [stage_tac|]); (split; [intros; congruence|]);
    intros; congruence.
Qed.

Lemma printAll_spec l :
  sat (@printAll W l) (fun evs r => in_stage 3 evs /\ r = Ok tt).
Proof.
  induction l as [|t l IH]; simpl; [sat_run; split; [stage_tac | reflexivity]|].
  unfold printTLDStatus. sat_run.
  eapply sat_conseq; [exact IH|]. cbv beta. intros evs r [H1 H2].
  split; [|exact H2]. apply in_stage_cons; [simpl; congruence | exact H1].
Qed.

Lemma statusBlock_spec :
  sat (statusBlock svc fl)
      (fun evs r =>
         in_stage 3 evs /\
         (forall c, r = Exit c -> c = 1) /\
         (status fl = false -> evs = [])).
Proof.
  unfold statusBlock. sat_run.
  - split; [stage_tac|]. split; intros; congruence.
  - eapply sat_conseq; [apply printAll_spec|]. cbv beta.
    intros evs r' [H1 H2]. split; [|split; intros; congruence].
    apply in_stage_cons; [simpl; congruence | exact H1].
  - split; [stage_tac|]. split; intros; congruence.
Qed.


Lemma requestBlock_spec err :
  sat (requestBlock svc fl err)
      (fun evs r =>
         in_stage 4 evs /\
         (forall c, r = Exit c -> c = 1) /\
         (forall e ex, In e evs -> bulk_exclusions e = Some ex ->
                       ex = excludeList fl) /\
         (forall tlds rsn a, In (EvRequestTLDs tlds rsn a) evs ->
            tlds = strings.Split (requestTLDs fl) comma /\
            rsn = reason fl) /\
         (reason fl = EmptyString ->
            request_calls evs = [] /\ requested evs = [] /\
            (doRequest fl = true -> r = Exit 1)) /\
         (requestAll fl = false ->
            (request_calls evs = [] /\ requested evs = [] /\
             (doRequest fl = true ->
              r = Exit 1 /\ reason fl = EmptyString)) \/
            (exists a,
                request_calls evs =
                  [EvRequestTLDs (strings.Split (requestTLDs fl) comma)
                                 (reason fl) a] /\
                match a with
                | Some _ => r = Exit 1 /\ requested evs = []
                | None =>
                    r = Ok None /\
                    requested evs = [strings.Split (requestTLDs fl) comma]
                end))).
Proof.
  unfold requestBlock. sat_run; simpl fst in *; simpl snd in *; subst;
    try rewrite Split_length_pos in *; try discriminate;
    (split; [stage_tac|]); (split; [intros; congruence|]).
  all: unfold vlog; destruct (verbose fl); simpl.
  all: try (split; [intros e' ex H; intuition (subst; simpl in *; congruence)|]).
  all: try (split; [intros ? ? ? H; simpl in H; intuition congruence|]).
  all: try (split;
    [ intros Hr; try (rewrite Hr in *; simpl in *; discriminate); auto
    | intros Ha; try discriminate ]).
  all: try (left; now auto using len_0).
  all: try (right; eexists; (split; [reflexivity|]); simpl; now auto).
  all: intuition discriminate.
Qed.


(** The extend loop: the zones up to the first failure, in order. *)
Lemma extendLoop_spec tlds : forall err,
  sat (extendLoop svc fl tlds err)
      (fun evs r =>
         in_stage 5 evs /\
         extended evs = [] /\
         (forall e ex, In e evs -> bulk_exclusions e <> Some ex) /\
         exists oks tail,
           extend_calls evs = map (fun z => (z, None)) oks ++ tail /\
           ((tail = [] /\ oks = tlds /\
             r = Ok (match tlds with [] => err | _ => None end)) \/
            (exists z e rest,
                tail = [(z, Some e)] /\ tlds = oks ++ z :: rest /\
                r = Ok (Some e)))).
Proof.
  induction tlds as [|tld rest IH]; intros err; simpl.
  - sat_run. repeat split; [stage_tac | intros ? ? []|].
    exists [], []. split; [reflexivity|]. left. auto.
  - sat_run.
    + split; [stage_tac|]. unfold vlog; destruct (verbose fl); simpl.
      all: split; [reflexivity|].
      all: split; [intros ? ? H; intuition (subst; simpl in *; congruence)|].
      all: exists [], [(tld, Some e)]; split; [reflexivity|].
      all: right; exists tld, e, rest; auto.
    + eapply sat_conseq; [apply IH|]. cbv beta.
      intros evs r' (Hst & Hex & Hbulk & oks & tail & Hcalls & Hcase).
      assert (Hpre : forall l, extend_calls
                 (vlog fl ("Requesting extension " ++ tld) ++
                   [EvExtendTLD tld None] ++ l)
               = (tld, None) :: extend_calls l)
        by (intros; unfold vlog; destruct (verbose fl); reflexivity).
      split; [|split; [|split]].
      * apply in_stage_app; [stage_tac|].
        apply in_stage_app; [stage_tac | exact Hst].
      * unfold vlog; destruct (verbose fl); simpl; exact Hex.
      * intros e' ex Hin. apply in_app_or in Hin. destruct Hin as [Hin|Hin].
        -- unfold vlog in Hin; destruct (verbose fl); simpl in Hin;
             intuition (subst; simpl in *; congruence).
        -- destruct Hin as [Hin|Hin]; [subst; simpl; congruence|].
           now apply Hbulk.
      * exists (tld :: oks), tail. split; [rewrite Hpre, Hcalls; reflexivity|].
        destruct Hcase as [(Ht & Ho & Hr)|(z & e & rest' & Ht & Ho & Hr)].
        -- left. subst. split; [reflexivity|]. split; [reflexivity|].
           destruct rest; reflexivity.
        -- right. exists z, e, rest'. subst. auto.
Qed.


Lemma extendBlock_spec err :
  sat (extendBlock svc fl err)
      (fun evs r =>
         in_stage 5 evs /\
         (forall c, r = Exit c -> c = 1) /\
         (forall e ex, In e evs -> bulk_exclusions e = Some ex ->
                       ex = excludeList fl) /\
         (extendAll fl = true -> extend_calls evs = []) /\
         (extendAll fl = false ->
          exists oks tail,
            extend_calls evs = map (fun z => (z, None)) oks ++ tail /\
            ((doExtend fl = false /\ tail = [] /\ oks = [] /\
              extended evs = [] /\ r = Ok err) \/
             (tail = [] /\ oks = strings.Split (extendTLDs fl) comma /\
              extended evs = [strings.Split (extendTLDs fl) comma] /\
              r = Ok None) \/
             (exists z e rest,
                 tail = [(z, Some e)] /\
                 strings.Split (extendTLDs fl) comma = oks ++ z :: rest /\
                 extended evs = [] /\ r = Exit 1)))).
Proof.
  unfold extendBlock. sat_run; simpl fst in *; simpl snd in *; subst.
  1-3: unfold vlog; destruct (verbose fl); simpl;
    (split; [stage_tac|]); (split; [intros; congruence|]);
    (split; [intros ? ? H; intuition (subst; simpl in *; congruence)|]);
    (split; [reflexivity | discriminate]).
  2: { split; [stage_tac|]. split; [intros; congruence|].
       split; [intros ? ? []|]. split; [reflexivity|].
       intros _. exists [], []. split; [reflexivity|]. left. auto. }
  eapply sat_conseq; [apply extendLoop_spec|]. cbv beta.
  intros evs r (Hst & Hex & Hbulk & oks & tail & Hcalls & Hcase).
  pose proof (Split_nonempty (extendTLDs fl) comma) as Hne.
  pose proof (Split_length_pos (extendTLDs fl) comma) as Hlen.
  destruct Hcase as [(Ht & Ho & Hr)|(z & e & rest & Ht & Ho & Hr)]; subst.
  - destruct (strings.Split (extendTLDs fl) comma) as [|t0 ts] eqn:Hs;
      [congruence|].
    sat_run; simpl fst in *; simpl snd in *; try discriminate.
    autorewrite with runs. rewrite Hex, Hcalls. simpl.
    split; [apply in_stage_app; [exact Hst | stage_tac]|].
    split; [intros; congruence|].
    split; [intros e' ex Hin Hb; apply in_app_or in Hin;
            destruct Hin as [Hin|[Hin|[]]];
            [now apply Hbulk in Hb | subst; discriminate]|].
    split; [discriminate|]. intros _.
    exists (t0 :: ts), []. split; [now autorewrite with runs|].
    right. left. auto.
  - sat_run; simpl fst in *; simpl snd in *; try discriminate.
    autorewrite with runs. rewrite Hex, Hcalls. simpl.
    split; [apply in_stage_app; [exact Hst | stage_tac]|].
    split; [intros; congruence|].
    split; [intros e' ex Hin Hb; apply in_app_or in Hin;
            destruct Hin as [Hin|[Hin|[]]];
            [now apply Hbulk in Hb | subst; discriminate]|].
    split; [discriminate|]. intros _.
    exists oks, [(z, Some e)]. split; [reflexivity|].
    right. right. exists z, e, rest. inversion Heqo; subst. auto.
Qed.


Lemma cancelRequest_spec zone :
  sat (cancelRequest svc zone)
      (fun evs r =>
         (exists id e,
             evs = [EvGetZoneRequestID zone (id, Some e)] /\
             r = Ok (Some e)) \/
         (exists id e,
             evs = [EvGetZoneRequestID zone (id, None);
                    EvCancelRequest {| RequestID := id; TLDName := zone |}
                                    (Some e)] /\
             r = Ok (Some e)) \/
         (exists id, evs = cancelled_ok (zone, id) /\ r = Ok None)).
Proof.
  unfold cancelRequest. sat_run; destruct r as [id x]; simpl in *; subst.
  - left. eauto.
  - right. left. eauto.
  - right. right. exists id. auto.
Qed.

(** The cancel loop: zones cancelled in order, up to the first zone whose
    lookup or cancel call fails. *)
Lemma cancelLoop_spec tlds : forall err,
  sat (cancelLoop svc fl tlds err)
      (fun evs r =>
         in_stage 6 evs /\
         exists done tail,
           cancel_calls evs = flat_map cancelled_ok done ++ tail /\
           ((tail = [] /\ map fst done = tlds /\
             r = Ok (match tlds with [] => err | _ => None end)) \/
            (exists z id e rest,
                (tail = [EvGetZoneRequestID z (id, Some e)] \/
                 tail = [EvGetZoneRequestID z (id, None);
                         EvCancelRequest
                           {| RequestID := id; TLDName := z |} (Some e)]) /\
                tlds = map fst done ++ z :: rest /\
                r = Ok (Some e)))).
Proof.
  induction tlds as [|tld rest IH]; intros err; simpl.
  - sat_run. split; [stage_tac|].
    exists [], []. split; [reflexivity|]. left. auto.
  - sat_run.
    eapply sat_conseq; [apply cancelRequest_spec|]. cbv beta.
    assert (Hlog : forall l, cancel_calls
              (vlog fl ("Requesting cancellation " ++ tld) ++ l)
            = cancel_calls l)
      by (intros; unfold vlog; destruct (verbose fl); reflexivity).
    assert (Hlogst : in_stage 6 (vlog fl ("Requesting cancellation " ++ tld)))
      by stage_tac.
    intros evs r [(id & e & -> & ->)|[(id & e & -> & ->)|(id & -> & ->)]];
      cbv beta iota.
    + sat_run. split; [apply in_stage_app; [exact Hlogst | stage_tac]|].
      exists [], [EvGetZoneRequestID tld (id, Some e)].
      split; [rewrite Hlog; reflexivity|].
      right. exists tld, id, e, rest. auto.
    + sat_run. split; [apply in_stage_app; [exact Hlogst | stage_tac]|].
      exists [], [EvGetZoneRequestID tld (id, None);
                  EvCancelRequest {| RequestID := id; TLDName := tld |}
                                  (Some e)].
      split; [rewrite Hlog; reflexivity|].
      right. exists tld, id, e, rest. auto.
    + eapply sat_conseq; [apply IH|]. cbv beta.
      intros evs r (Hst & done & tail & Hcalls & Hcase).
      split.
      * apply in_stage_app; [exact Hlogst|].
        apply in_stage_app; [stage_tac | exact Hst].
      * exists ((tld, id) :: done), tail.
        split; [rewrite Hlog; simpl; now rewrite Hcalls|].
        destruct Hcase as [(-> & <- & ->)|(z & id' & e & rest' & Ht & -> & ->)].
        -- left. split; [reflexivity|]. split; [reflexivity|].
           destruct (map fst done); reflexivity.
        -- right. exists z, id', e, rest'. auto.
Qed.

Lemma cancelBlock_spec err :
  sat (cancelBlock svc fl err)
      (fun evs r =>
         in_stage 6 evs /\
         (forall c, r = Exit c -> c = 1) /\
         (doCancel fl = false -> evs = []) /\
         exists done tail,
           cancel_calls evs = flat_map cancelled_ok done ++ tail /\
           ((doCancel fl = false /\ done = [] /\ tail = [] /\ r = Ok tt) \/
            (tail = [] /\
             map fst done = strings.Split (cancelTLDs fl) comma /\
             r = Ok tt) \/
            (exists z id e rest,
                (tail = [EvGetZoneRequestID z (id, Some e)] \/
                 tail = [EvGetZoneRequestID z (id, None);
                         EvCancelRequest
                           {| RequestID := id; TLDName := z |} (Some e)]) /\
                strings.Split (cancelTLDs fl) comma
                = map fst done ++ z :: rest /\
                r = Exit 1))).
Proof.
  unfold cancelBlock. sat_run.
  2: { split; [stage_tac|]. split; [intros; congruence|].
       split; [reflexivity|].
       exists [], []. split; [reflexivity|]. left. auto. }
  eapply sat_conseq; [apply cancelLoop_spec|]. cbv beta.
  intros evs r (Hst & done & tail & Hcalls & Hcase).
  pose proof (Split_nonempty (cancelTLDs fl) comma) as Hne.
  pose proof (Split_length_pos (cancelTLDs fl) comma) as Hlen.
  destruct Hcase as [(-> & Hd & ->)|(z & id & e & rest & Ht & Hd & ->)].
  - destruct (strings.Split (cancelTLDs fl) comma) as [|t0 ts] eqn:Hs;
      [congruence|].
    sat_run; try discriminate.
    autorewrite with runs. rewrite Hcalls. simpl.
    split; [apply in_stage_app; [exact Hst | stage_tac]|].
    split; [intros; congruence|]. split; [congruence|].
    exists done, []. split; [now autorewrite with runs|].
    right. left. auto.
  - sat_run.
    autorewrite with runs. rewrite Hcalls. simpl.
    split; [apply in_stage_app; [exact Hst | stage_tac]|].
    split; [intros; congruence|]. split; [congruence|].
    exists done, tail. split; [now autorewrite with runs|].
    right. right. exists z, id, e, rest. auto.
Qed.


End Blocks.

(** ** Running [main] block by block *)

Ltac use_spec lem e H :=
  eapply sat_conseq;
  [ apply lem
  | cbv beta;
    let r := fresh "r" in
    intros e r H; destruct r; cbv beta iota ].

(** Chains the specifications of the blocks along [main]: one goal for
    each place where the process can end. *)
Ltac main_step :=
  match goal with
  | |- sat (bind _ _) _ => apply sat_bind
  | |- sat (checkFlags _) _ =>
      let e := fresh "e_cf" in let H := fresh "H_cf" in
      use_spec checkFlags_spec e H
  | |- sat (getPassword _ _) _ =>
      let e := fresh "e_pw" in let H := fresh "H_pw" in
      use_spec getPassword_spec e H
  | |- sat (checkIntent _) _ =>
      let e := fresh "e_in" in let H := fresh "H_in" in
      use_spec checkIntent_spec e H
  | |- sat (newClient _ _ _) _ =>
      let e := fresh "e_nc" in let H := fresh "H_nc" in
      use_spec newClient_spec e H
  | |- sat (authenticate _ _) _ =>
      let e := fresh "e_au" in let H := fresh "H_au" in
      use_spec authenticate_spec e H
  | |- sat (termsBlock _ _) _ =>
      let e := fresh "e_tm" in let H := fresh "H_tm" in
      use_spec termsBlock_spec e H
  | |- sat (statusBlock _ _) _ =>
      let e := fresh "e_st" in let H := fresh "H_st" in
      use_spec statusBlock_spec e H
  | |- sat (requestBlock _ _ _) _ =>
      let e := fresh "e_rq" in let H := fresh "H_rq" in
      use_spec requestBlock_spec e H
  | |- sat (extendBlock _ _ _) _ =>
      let e := fresh "e_ex" in let H := fresh "H_ex" in
      use_spec extendBlock_spec e H
  | |- sat (cancelBlock _ _ _) _ =>
      let e := fresh "e_cn" in let H := fresh "H_cn" in
      use_spec cancelBlock_spec e H
  end.

Ltac stage_facts :=
  repeat match goal with
    | H : in_stage ?k ?e /\ _ |- _ =>
        lazymatch goal with
        | _ : in_stage k e |- _ => fail
        | _ => pose proof (proj1 H)
        end
    end.

Ltac main_run :=
  unfold main; repeat main_step;
  try solve [exfalso;
             match goal with
             | H : _ /\ Exit _ = Ok _ /\ _ |- _ =>
                 destruct H as (_ & H & _); discriminate H
             end];
  stage_facts.

(** Finds the block that an event of the run comes from; the blocks of
    another stage are ruled out. *)
Ltac locate Hin :=
  repeat (apply in_app_or in Hin; destruct Hin as [Hin|Hin]);
  try solve [exfalso;
             match goal with
             | S : in_stage ?k ?e |- _ =>
                 match type of Hin with
                 | In ?x e =>
                     let Hk := fresh in
                     pose proof (@in_stage_In k e x _ S Hin eq_refl) as Hk;
                     discriminate Hk
                 end
             end].

(** Stages in program order. *)
Lemma sorted_block k k' l1 l2 :
  Forall (eq k) l1 ->
  StronglySorted le l2 /\ Forall (le k') l2 ->
  k <= k' ->
  StronglySorted le (l1 ++ l2) /\ Forall (le k) (l1 ++ l2).
Proof.
  intros H1 [Hs Hb] Hk.
  assert (Hb' : Forall (le k) l2)
    by (eapply Forall_impl; [|exact Hb]; intros; simpl in *; lia).
  induction H1 as [|x l Hx _ IH]; simpl; [now split|].
  subst x. destruct IH as [IH1 IH2].
  split; constructor; auto.
Qed.

Lemma sorted_last k l :
  Forall (eq k) l -> StronglySorted le l /\ Forall (le k) l.
Proof.
  intros H. rewrite <- (app_nil_r l).
  apply (@sorted_block k k l []); auto. split; constructor.
Qed.

Ltac sorted_tac :=
  first
    [ eapply sorted_last; apply in_stage_stages; eassumption
    | eapply sorted_block;
      [ apply in_stage_stages; eassumption | sorted_tac | lia ] ].

Section MainOrder.
Variable W : Type.
Variable svc : Service W.
Variable fl : Flags.

Lemma main_stages_sorted :
  sat (main svc fl) (fun evs _ => StronglySorted le (stages evs)).
Proof.
  main_run; autorewrite with runs;
    apply (fun l (H : StronglySorted le l /\ Forall (le 0) l) => proj1 H);
    sorted_tac.
Qed.

Lemma main_request_explicit :
  requestAll fl = false ->
  sat (main svc fl)
      (fun evs r =>
         (request_calls evs = [] /\ requested evs = [] /\
          (doRequest fl = true -> r <> Ok tt)) \/
         (exists a,
             request_calls evs =
               [EvRequestTLDs (strings.Split (requestTLDs fl) comma)
                              (reason fl) a] /\
             match a with
             | Some _ => r = Exit 1 /\ requested evs = []
             | None => requested evs = [strings.Split (requestTLDs fl) comma]
             end)).
Proof.
  intros Hall. main_run; drop_others.
  all: try solve [left; repeat split; intros _; discriminate].
  all: destruct H_rq as (_ & _ & _ & _ & _ & Hrq); specialize (Hrq Hall);
    destruct Hrq as [(Hc & Hr & Hd)|(a' & Hc & Ha)]; rewrite Hc.
  all: try solve [left; rewrite Hr; repeat split; intros Hdo;
                  first [discriminate
                        | destruct (Hd Hdo) as [Hd' _]; discriminate Hd']].
  all: right; exists a'; (split; [reflexivity|]);
    destruct a'; [destruct Ha as [Ha1 Ha2]; try discriminate Ha1;
                  injection Ha1 as ->; auto
                 | destruct Ha; auto].
Qed.

Lemma main_extend_explicit :
  extendAll fl = false ->
  sat (main svc fl)
      (fun evs r =>
         exists oks tail,
           extend_calls evs = map (fun z => (z, None)) oks ++ tail /\
           ((tail = [] /\ oks = [] /\ extended evs = [] /\
             (doExtend fl = true -> r <> Ok tt)) \/
            (tail = [] /\ oks = strings.Split (extendTLDs fl) comma /\
             extended evs = [strings.Split (extendTLDs fl) comma]) \/
            (exists z e rest,
                tail = [(z, Some e)] /\
                strings.Split (extendTLDs fl) comma = oks ++ z :: rest /\
                extended evs = [] /\ r = Exit 1))).
Proof.
  intros Hall. main_run; drop_others.
  all: try solve [exists [], []; split; [reflexivity|]; left;
                  repeat split; intros _; discriminate].
  all: destruct H_ex as (_ & _ & _ & _ & Hex); specialize (Hex Hall);
    destruct Hex as (oks & tail & Hc & Hex); exists oks, tail;
    (split; [exact Hc|]);
    destruct Hex as [(Hd & Ht & Ho & He & Hr)
                    |[(Ht & Ho & He & Hr)|(z & e & rest & Ht & Ho & He & Hr)]];
    try discriminate Hr.
  all: try solve [left; repeat split; auto; intros Hdo; congruence].
  all: try solve [right; left; auto].
  all: right; right; exists z, e, rest; injection Hr as ->; auto.
Qed.

Lemma main_cancel :
  sat (main svc fl)
      (fun evs r =>
         exists done tail,
           cancel_calls evs = flat_map cancelled_ok done ++ tail /\
           ((tail = [] /\
             ((done = [] /\ (doCancel fl = true -> r <> Ok tt)) \/
              (map fst done = strings.Split (cancelTLDs fl) comma /\
               r = Ok tt))) \/
            (exists z id e rest,
                (tail = [EvGetZoneRequestID z (id, Some e)] \/
                 tail = [EvGetZoneRequestID z (id, None);
                         EvCancelRequest
                           {| RequestID := id; TLDName := z |} (Some e)]) /\
                strings.Split (cancelTLDs fl) comma
                = map fst done ++ z :: rest /\
                r = Exit 1))).
Proof.
  main_run; drop_others.
  all: try solve [exists [], []; split; [reflexivity|]; left;
                  split; [reflexivity|]; left; split; [reflexivity|];
                  intros _; discriminate].
  all: destruct H_cn as (_ & _ & _ & done & tail & Hc & Hcn);
    exists done, tail; (split; [exact Hc|]);
    destruct Hcn as [(Hd & Ho & Ht & Hr)
                    |[(Ht & Ho & Hr)|(z & id & e & rest & Ht & Ho & Hr)]];
    try discriminate Hr.
  all: try solve [left; split; auto; left; split; auto; congruence].
  all: try solve [left; split; auto; right; split; auto;
                  destruct a8; reflexivity].
  all: right; exists z, id, e, rest; injection Hr as ->; auto.
Qed.

Lemma main_auth_failure :
  sat (main svc fl)
      (fun evs r =>
         forall e, In (EvAuthenticate (Some e)) evs ->
                   remote_calls evs = [EvAuthenticate (Some e)] /\
                   r = Exit 1).
Proof.
  main_run; intros e' Hin; locate Hin.
  all: destruct H_au as (_ & a' & Hc & Ha).
  all: assert (Hf : In (EvAuthenticate (Some e')) (remote_calls e_au))
    by (apply filter_In; split; [exact Hin | reflexivity]).
  all: rewrite Hc in Hf; destruct Hf as [Hf|[]]; inversion Hf; subst a'.
  all: try discriminate Ha.
  drop_others. rewrite Hc. injection Ha as ->. split; reflexivity.
Qed.

Lemma main_getpass :
  sat (main svc fl)
      (fun evs r =>
         forall src x, In (EvGetpass src x) evs ->
           password fl = EmptyString /\ src = passin fl /\
           (forall e, snd x = Some e ->
              r = Exit 1 /\
              (forall u p, ~ In (EvNewClient u p) evs) /\
              remote_calls evs = [])).
Proof.
  main_run; intros src x Hin; locate Hin.
  all: try solve [exfalso; destruct H_cf as (_ & _ & _ & Hn);
                  exact (Hn _ _ Hin)].
  all: try solve [exfalso; destruct H_in as (_ & _ & _ & Hn);
                  exact (Hn _ _ Hin)].
  all: try solve [exfalso; destruct H_nc as (_ & _ & Hn);
                  exact (Hn _ _ Hin)].
  all: destruct H_pw as (_ & _ & Hnc & Hpw);
    destruct (Hpw _ _ Hin) as (Hp & Hs & Hx);
    (split; [exact Hp|]); (split; [exact Hs|]);
    intros e' He; specialize (Hx _ He); try discriminate Hx.
  injection Hx as ->. split; [reflexivity|]. split.
  - intros u p Hn. apply in_app_or in Hn. destruct Hn as [Hn|Hn].
    + destruct H_cf as (_ & _ & Hc & _). exact (Hc _ _ Hn).
    + exact (Hnc _ _ Hn).
  - now drop_others.
Qed.

Lemma bulk_stage e ex :
  bulk_exclusions e = Some ex -> stage e = Some 4 \/ stage e = Some 5.
Proof. destruct e; simpl; try discriminate; auto. Qed.

Lemma main_bulk :
  sat (main svc fl)
      (fun evs _ =>
         forall e ex, In e evs -> bulk_exclusions e = Some ex ->
                      ex = excludeList fl).
Proof.
  main_run; intros x ex Hin Hb;
    repeat (apply in_app_or in Hin; destruct Hin as [Hin|Hin]).
  all: try solve [destruct H_rq as (_ & _ & Hq & _); exact (Hq _ _ Hin Hb)].
  all: try solve [destruct H_ex as (_ & _ & Hq & _); exact (Hq _ _ Hin Hb)].
  all: exfalso; destruct (bulk_stage _ Hb) as [Hs|Hs];
    match goal with
    | S : in_stage ?k ?e |- _ =>
        match type of Hin with
        | In _ e =>
            let Hk := fresh in
            pose proof (@in_stage_In _ _ _ _ S Hin Hs) as Hk;
            discriminate Hk
        end
    end.
Qed.

Lemma main_request_list :
  sat (main svc fl)
      (fun evs _ =>
         forall tlds rsn a, In (EvRequestTLDs tlds rsn a) evs ->
           tlds = strings.Split (requestTLDs fl) comma /\ rsn = reason fl).
Proof.
  main_run; intros tlds rsn a' Hin; locate Hin.
  all: destruct H_rq as (_ & _ & _ & Hq & _); exact (Hq _ _ _ Hin).
Qed.

Lemma main_extend_bulk :
  extendAll fl = true ->
  sat (main svc fl) (fun evs _ => extend_calls evs = []).
Proof.
  intros Hall. main_run; drop_others; try reflexivity.
  all: destruct H_ex as (_ & _ & _ & Hq & _); exact (Hq Hall).
Qed.

Lemma main_empty_reason :
  doRequest fl = true -> reason fl = EmptyString -> showVersion fl = false ->
  sat (main svc fl)
      (fun evs r =>
         r = Exit 1 /\
         (forall x, In x evs -> is_remote x = true -> before_request fl x)).
Proof.
  intros Hdo Hrsn Hver. main_run.
  all: try solve [exfalso; destruct H_rq as (_ & _ & _ & _ & Hq & _);
                  destruct (Hq Hrsn) as (_ & _ & Hq'); discriminate (Hq' Hdo)].
  all: split.
  all: try solve [destruct H_cf as (_ & Hc & _); now rewrite (Hc _ eq_refl Hver)].
  all: try solve [destruct H_pw as (_ & Hc & _); now rewrite (Hc _ eq_refl)].
  all: try solve [destruct H_in as (_ & Hc & _); now rewrite (Hc _ eq_refl)].
  all: try solve [destruct H_au as (_ & [a'|] & _ & Hc);
                  [injection Hc as ->; reflexivity | discriminate Hc]].
  all: try solve [destruct H_tm as (_ & Hc & _); now rewrite (Hc _ eq_refl)].
  all: try solve [destruct H_st as (_ & Hc & _); now rewrite (Hc _ eq_refl)].
  all: try solve [destruct H_rq as (_ & Hc & _); now rewrite (Hc _ eq_refl)].
  all: intros x Hin Hrem; destruct x; try discriminate Hrem; simpl;
    try exact I; locate Hin.
  all: try solve [destruct (printTerms fl) eqn:E; [reflexivity|];
                  destruct H_tm as (_ & _ & Ht); rewrite (Ht eq_refl) in Hin;
                  destruct Hin].
  all: try solve [destruct (status fl) eqn:E; [reflexivity|];
                  destruct H_st as (_ & _ & Ht); rewrite (Ht eq_refl) in Hin;
                  destruct Hin].
  all: destruct H_rq as (_ & _ & _ & _ & Hq & _);
    destruct (Hq Hrsn) as (Hq' & _);
    match type of Hin with
    | In ?x _ =>
        assert (Hf : In x (request_calls e_rq))
          by (apply filter_In; split; [exact Hin | reflexivity])
    end;
    rewrite Hq' in Hf; destruct Hf.
Qed.
End MainOrder.

(** ** The workflows once they are reached *)

Section Reached.
Variable W : Type.
Variable svc : Service W.
Variable fl : Flags.

Lemma requestBlock_explicit err w :
  requestAll fl = false -> doRequest fl = true ->
  reason fl <> EmptyString ->
  exists a,
    request_calls (events (requestBlock svc fl err w))
    = [EvRequestTLDs (strings.Split (requestTLDs fl) comma) (reason fl) a] /\
    match a with
    | Some _ =>
        result (requestBlock svc fl err w) = Exit 1 /\
        requested (events (requestBlock svc fl err w)) = []
    | None =>
        result (requestBlock svc fl err w) = Ok None /\
        requested (events (requestBlock svc fl err w))
        = [strings.Split (requestTLDs fl) comma]
    end.
Proof.
  intros Hall Hdo Hr.
  destruct (@requestBlock_spec W svc fl err w) as (_ & _ & _ & _ & _ & H).
  destruct (H Hall) as [(_ & _ & Hd)|H']; [|exact H'].
  destruct (Hd Hdo) as [_ He]. contradiction.
Qed.

Lemma extendBlock_explicit err w :
  extendAll fl = false -> doExtend fl = true ->
  exists oks tail,
    extend_calls (events (extendBlock svc fl err w))
    = map (fun z => (z, None)) oks ++ tail /\
    ((tail = [] /\ oks = strings.Split (extendTLDs fl) comma /\
      extended (events (extendBlock svc fl err w))
      = [strings.Split (extendTLDs fl) comma] /\
      result (extendBlock svc fl err w) = Ok None) \/
     (exists z e rest,
         tail = [(z, Some e)] /\
         strings.Split (extendTLDs fl) comma = oks ++ z :: rest /\
         extended (events (extendBlock svc fl err w)) = [] /\
         result (extendBlock svc fl err w) = Exit 1)).
Proof.
  intros Hall Hdo.
  destruct (@extendBlock_spec W svc fl err w) as (_ & _ & _ & _ & H).
  destruct (H Hall) as (oks & tail & Hc & Hcase).
  exists oks, tail. split; [exact Hc|].
  destruct Hcase as [(Hd & _)|[H'|H']]; [congruence | now left | now right].
Qed.

Lemma cancelBlock_reached err w :
  doCancel fl = true ->
  exists done tail,
    cancel_calls (events (cancelBlock svc fl err w))
    = flat_map cancelled_ok done ++ tail /\
    ((tail = [] /\
      map fst done = strings.Split (cancelTLDs fl) comma /\
      result (cancelBlock svc fl err w) = Ok tt) \/
     (exists z id e rest,
         (tail = [EvGetZoneRequestID z (id, Some e)] \/
          tail = [EvGetZoneRequestID z (id, None);
                  EvCancelRequest {| RequestID := id; TLDName := z |}
                                  (Some e)]) /\
         strings.Split (cancelTLDs fl) comma = map fst done ++ z :: rest /\
         result (cancelBlock svc fl err w) = Exit 1)).
Proof.
  intros Hdo.
  destruct (@cancelBlock_spec W svc fl err w)
    as (_ & _ & _ & done & tail & Hc & Hcase).
  exists done, tail. split; [exact Hc|].
  destruct Hcase as [(Hd & _)|[H'|H']]; [congruence | now left | now right].
Qed.
End Reached.

Lemma firstn_prefix {A} (l1 l2 : list A) : firstn (length l1) (l1 ++ l2) = l1.
Proof. induction l1 as [|x l IH]; simpl; [reflexivity | now rewrite IH]. Qed.

Lemma lookup_zones_cancel_calls evs :
  lookup_zones (cancel_calls evs) = lookup_zones evs.
Proof.
  induction evs as [|e l IH]; simpl; [reflexivity|].
  destruct e; simpl; rewrite ?IH; reflexivity.
Qed.

Lemma lookup_zones_app l1 l2 :
  lookup_zones (l1 ++ l2) = lookup_zones l1 ++ lookup_zones l2.
Proof. apply flat_map_app. Qed.

Lemma lookup_zones_ok done :
  lookup_zones (flat_map cancelled_ok done) = map fst done.
Proof.
  induction done as [|zi l IH]; simpl; [reflexivity|]. now rewrite IH.
Qed.

Lemma map_fst_ok (oks : list string) :
  map fst (map (fun z : string => (z, @None error)) oks) = oks.
Proof. induction oks as [|z l IH]; simpl; [reflexivity | now rewrite IH]. Qed.

(** * The properties of the specification, C1 to C10 *)

(** The text of a report line. *)
Example render_extended :
  render (OutExtended ["a"; "b"; "c"])
  = ("Extended: [a b c]" ++ newline)%string.
Proof. reflexivity. Qed.

(** C1 (not met by the code).  Whether the cancel workflow runs
    is decided by the extend list, not by the cancel list: [doCancel] is
    true exactly when [-extend] is non-empty and is unchanged by [-cancel].
    With [-cancel a,b -terms] and no extend list the run succeeds without a
    single lookup or cancel call; with [-extend e] and no cancel list the
    cancel workflow runs on the one empty zone that splitting the empty
    cancel list gives. *)
Theorem cancel_gated_by_extend_list :
  (forall fl s,
      doCancel (Stub.with_cancel s fl) = doCancel fl /\
      doCancel fl = negb (String.eqb (extendTLDs fl) EmptyString)) /\
  (cancelTLDs Cases.cancel_ab = "a,b" /\
   cancel_calls (events (Stub.run Stub.all_good Cases.cancel_ab)) = [] /\
   result (Stub.run Stub.all_good Cases.cancel_ab) = Ok tt) /\
  (cancelTLDs Cases.extend_e = EmptyString /\
   cancel_calls (events (Stub.run Stub.all_good Cases.extend_e))
   = cancelled_ok (EmptyString, "id-")).
Proof.
  split; [|split; vm_compute; auto].
  intros fl s. split; [reflexivity|].
  unfold doCancel, len. destruct (extendTLDs fl); reflexivity.
Qed.

(** C2, as stated, fails: with [-extend a,b,c] and the extend call failing
    on b, the zones a and b are attempted and c is not, the process ends
    with status 1, but no list is reported as extended. *)
Lemma extend_failure_reports_nothing :
  extend_calls (events (Stub.run Cases.fail_b_x Cases.extend_abc))
  = [("a", None); ("b", Some "extend failed")] /\
  result (Stub.run Cases.fail_b_x Cases.extend_abc) = Exit 1 /\
  ~ In ["a"; "b"; "c"]
       (extended (events (Stub.run Cases.fail_b_x Cases.extend_abc))).
Proof. vm_compute. repeat split. intros []. Qed.

(** C2, amended.  With an explicit extend list: once the extend workflow
    is reached, the per-zone extend calls are made for the zones of the
    list in order, each one after the success of the one before, and end at
    the first failure; then the process exits with status 1 and nothing is
    reported as extended, and the list is reported, in full, exactly when
    every zone succeeded.  A whole run of [main] has these same extend
    calls, or none when it ended before the workflow. *)
Theorem extend_explicit_stops_at_first_failure
        (W : Type) (svc : Service W) (fl : Flags) (w w' : W)
        (err : option error) :
  extendAll fl = false ->
  (doExtend fl = true ->
   exists oks tail,
     extend_calls (events (extendBlock svc fl err w'))
     = map (fun z => (z, None)) oks ++ tail /\
     ((tail = [] /\ oks = strings.Split (extendTLDs fl) comma /\
       extended (events (extendBlock svc fl err w'))
       = [strings.Split (extendTLDs fl) comma] /\
       result (extendBlock svc fl err w') = Ok None) \/
      (exists z e rest,
          tail = [(z, Some e)] /\
          strings.Split (extendTLDs fl) comma = oks ++ z :: rest /\
          extended (events (extendBlock svc fl err w')) = [] /\
          result (extendBlock svc fl err w') = Exit 1))) /\
  (exists oks tail,
    extend_calls (events (main svc fl w))
    = map (fun z => (z, None)) oks ++ tail /\
    ((tail = [] /\ oks = [] /\ extended (events (main svc fl w)) = [] /\
      (doExtend fl = true -> result (main svc fl w) <> Ok tt)) \/
     (tail = [] /\ oks = strings.Split (extendTLDs fl) comma /\
      extended (events (main svc fl w))
      = [strings.Split (extendTLDs fl) comma]) \/
     (exists z e rest,
         tail = [(z, Some e)] /\
         strings.Split (extendTLDs fl) comma = oks ++ z :: rest /\
         extended (events (main svc fl w)) = [] /\
         result (main svc fl w) = Exit 1))).
Proof.
  intros H. split.
  - intros Hdo. exact (@extendBlock_explicit W svc fl err w' H Hdo).
  - exact (@main_extend_explicit W svc fl H w).
Qed.

Lemma extend_explicit_stops_at_first_failure_witness :
  extendAll Cases.extend_abc = false /\
  exists oks tail,
    extend_calls (events (Stub.run Cases.fail_b_x Cases.extend_abc))
    = map (fun z => (z, None)) oks ++ tail /\
    ((tail = [] /\ oks = [] /\
      extended (events (Stub.run Cases.fail_b_x Cases.extend_abc)) = [] /\
      (doExtend Cases.extend_abc = true ->
       result (Stub.run Cases.fail_b_x Cases.extend_abc) <> Ok tt)) \/
     (tail = [] /\ oks = strings.Split (extendTLDs Cases.extend_abc) comma /\
      extended (events (Stub.run Cases.fail_b_x Cases.extend_abc))
      = [strings.Split (extendTLDs Cases.extend_abc) comma]) \/
     (exists z e rest,
         tail = [(z, Some e)] /\
         strings.Split (extendTLDs Cases.extend_abc) comma
         = oks ++ z :: rest /\
         extended (events (Stub.run Cases.fail_b_x Cases.extend_abc)) = [] /\
         result (Stub.run Cases.fail_b_x Cases.extend_abc) = Exit 1)).
Proof.
  split; [reflexivity|].
  apply (@extend_explicit_stops_at_first_failure
           nat (Stub.service Cases.fail_b_x) Cases.extend_abc 0 0 None).
  reflexivity.
Defined.

(** When every zone succeeds the full list is reported. *)
Example extend_all_zones_succeed :
  extend_calls (events (Stub.run Stub.all_good Cases.extend_abc))
  = [("a", None); ("b", None); ("c", None)] /\
  extended (events (Stub.run Stub.all_good Cases.extend_abc))
  = [["a"; "b"; "c"]].
Proof. vm_compute. split; reflexivity. Qed.

(** C3, as stated, fails: with [-request-all] and no reason, the
    authentication call is made before the reason is looked at; the
    call-counting stub has counted one call when the process ends. *)
Lemma empty_reason_after_authentication :
  doRequest Cases.request_all_no_reason = true /\
  reason Cases.request_all_no_reason = EmptyString /\
  remote_calls (events (Stub.run Stub.all_good Cases.request_all_no_reason))
  = [EvAuthenticate None] /\
  final (Stub.run Stub.all_good Cases.request_all_no_reason) = 1 /\
  ~ length (remote_calls
              (events (Stub.run Stub.all_good Cases.request_all_no_reason)))
    = 0.
Proof. vm_compute. repeat split. discriminate. Qed.

(** C3, amended.  When a request intent is given with an empty reason (and
    the program was not only asked for its version), the process exits with
    status 1 and the only remote calls it has made are the authentication
    and, when asked for, the terms and status calls: no request, extend or
    cancel call is made. *)
Theorem empty_reason_is_fatal_before_request
        (W : Type) (svc : Service W) (fl : Flags) (w : W) :
  doRequest fl = true ->
  reason fl = EmptyString ->
  showVersion fl = false ->
  result (main svc fl w) = Exit 1 /\
  Forall (before_request fl) (remote_calls (events (main svc fl w))).
Proof.
  intros Hdo Hr Hv.
  destruct (@main_empty_reason W svc fl Hdo Hr Hv w) as [H1 H2].
  split; [exact H1|].
  apply Forall_forall. intros x Hx. apply filter_In in Hx.
  destruct Hx as [Hin Hrem]. exact (H2 x Hin Hrem).
Qed.

Lemma empty_reason_is_fatal_before_request_witness :
  doRequest Cases.all_intents_no_reason = true /\
  reason Cases.all_intents_no_reason = EmptyString /\
  showVersion Cases.all_intents_no_reason = false /\
  result (Stub.run Stub.all_good Cases.all_intents_no_reason) = Exit 1 /\
  Forall (before_request Cases.all_intents_no_reason)
         (remote_calls
            (events (Stub.run Stub.all_good Cases.all_intents_no_reason))).
Proof.
  split; [reflexivity|]. split; [reflexivity|]. split; [reflexivity|].
  apply (@empty_reason_is_fatal_before_request
           nat (Stub.service Stub.all_good) Cases.all_intents_no_reason 0);
    reflexivity.
Defined.

(** C4 (not met by the code).  The zones of a cancel list are looked up
    only when an extend list is given too, which is the defect of C1.
    With [-terms -cancel x,y] and a service whose lookup of x fails, the
    run makes no lookup and no cancel call, and [main] returns: the
    failure that the lookup of x should cause never happens.  With
    [-cancel x,y] alone the process ends at "Nothing to do!", again
    without a lookup. *)
Theorem cancel_list_alone_is_never_looked_up :
  Stub.lookup_fails Cases.fail_b_x "x" = true /\
  (cancelTLDs (Stub.with_cancel "x,y"
                 (Stub.with_terms_status true false Stub.flags0)) = "x,y" /\
   lookup_zones
     (events (Stub.run Cases.fail_b_x
                (Stub.with_cancel "x,y"
                   (Stub.with_terms_status true false Stub.flags0)))) = [] /\
   cancel_calls
     (events (Stub.run Cases.fail_b_x
                (Stub.with_cancel "x,y"
                   (Stub.with_terms_status true false Stub.flags0)))) = [] /\
   result (Stub.run Cases.fail_b_x
             (Stub.with_cancel "x,y"
                (Stub.with_terms_status true false Stub.flags0))) = Ok tt) /\
  (cancelTLDs (Stub.with_cancel "x,y" Stub.flags0) = "x,y" /\
   events (Stub.run Cases.fail_b_x (Stub.with_cancel "x,y" Stub.flags0))
   = [EvLogFatal "Nothing to do!"] /\
   result (Stub.run Cases.fail_b_x (Stub.with_cancel "x,y" Stub.flags0))
   = Exit 1).
Proof. vm_compute. repeat split. Qed.

(** C5.  When the authentication call fails, it is the only remote call of
    the run, whatever was asked for, and the process exits with status 1. *)
Theorem authentication_failure_is_fatal
        (W : Type) (svc : Service W) (fl : Flags) (w : W) (e : error) :
  In (EvAuthenticate (Some e)) (events (main svc fl w)) ->
  remote_calls (events (main svc fl w)) = [EvAuthenticate (Some e)] /\
  result (main svc fl w) = Exit 1.
Proof. intros H. exact (@main_auth_failure W svc fl w e H). Qed.

Lemma authentication_failure_is_fatal_witness :
  In (EvAuthenticate (Some "authenticate failed"))
     (events (Stub.run Cases.fail_auth Cases.all_intents_no_reason)) /\
  remote_calls (events (Stub.run Cases.fail_auth Cases.all_intents_no_reason))
  = [EvAuthenticate (Some "authenticate failed")] /\
  result (Stub.run Cases.fail_auth Cases.all_intents_no_reason) = Exit 1.
Proof.
  assert (H : In (EvAuthenticate (Some "authenticate failed"))
                 (events (Stub.run Cases.fail_auth
                                   Cases.all_intents_no_reason)))
    by (vm_compute; auto).
  split; [exact H|].
  exact (@authentication_failure_is_fatal
           nat (Stub.service Cases.fail_auth) Cases.all_intents_no_reason 0
           "authenticate failed" H).
Defined.

(** C6.  In every run the events come in the order of the program: set-up,
    authentication, then the terms, status, request, extend and cancel
    workflows, each one finished before the next begins. *)
Theorem workflows_in_fixed_order
        (W : Type) (svc : Service W) (fl : Flags) (w : W) :
  StronglySorted le (stages (events (main svc fl w))).
Proof. exact (@main_stages_sorted W svc fl w). Qed.

(** A run with every intent given: all five workflows, in order. *)
Example all_workflows_run :
  remote_calls
    (events (Stub.run Stub.all_good
               (Stub.with_cancel "x" (Stub.with_extend "e"
                  (Stub.with_request "a" "r"
                     (Stub.with_terms_status true true Stub.flags0))))))
  = [EvAuthenticate None;
     EvGetTerms ({| Version := "1"; Content := "terms" |}, None);
     EvGetTLDStatus ([{| TLD := "com"; CurrentStatus := "approved" |};
                      {| TLD := "net"; CurrentStatus := "pending" |}], None);
     EvRequestTLDs ["a"] "r" None;
     EvExtendTLD "e" None;
     EvGetZoneRequestID "x" ("id-x", None);
     EvCancelRequest {| RequestID := "id-x"; TLDName := "x" |} None].
Proof. vm_compute. reflexivity. Qed.

(** C7.  An explicit list is the raw string split at the commas and nothing
    else: joining the tokens with commas gives the input back (nothing is
    trimmed, dropped, reordered or merged), there is one token more than
    there are commas, no token holds a comma, and the empty string gives
    the one empty token.  That list is what the explicit request call
    carries, and the zones of the per-zone extend calls and of the lookups
    of the cancel workflow are an initial part of their list, in order. *)
Theorem explicit_list_is_split_verbatim
        (W : Type) (svc : Service W) (fl : Flags) (w : W) (s : string) :
  (strings.Join (strings.Split s comma) comma = s /\
   length (strings.Split s comma) = S (strings.Count s comma) /\
   Forall (fun t => strings.Contains t comma = false)
          (strings.Split s comma) /\
   strings.Split EmptyString comma = [EmptyString]) /\
  (forall tlds rsn a,
      In (EvRequestTLDs tlds rsn a) (events (main svc fl w)) ->
      tlds = strings.Split (requestTLDs fl) comma) /\
  (exists n,
      map fst (extend_calls (events (main svc fl w)))
      = firstn n (strings.Split (extendTLDs fl) comma)) /\
  (exists n,
      lookup_zones (events (main svc fl w))
      = firstn n (strings.Split (cancelTLDs fl) comma)).
Proof.
  split; [|split; [|split]].
  - split; [apply Join_Split|]. split; [apply Split_length|].
    split; [apply Split_tokens | reflexivity].
  - intros tlds rsn a H.
    exact (proj1 (@main_request_list W svc fl w tlds rsn a H)).
  - destruct (extendAll fl) eqn:Hall.
    + exists 0. now rewrite (@main_extend_bulk W svc fl Hall w).
    + destruct (@main_extend_explicit W svc fl Hall w)
        as (oks & tail & Hc & Hcase).
      rewrite Hc, map_app, map_fst_ok.
      destruct Hcase as [(-> & -> & _)
                        |[(-> & -> & _)|(z & e & rest & -> & -> & _)]].
      * exists 0. reflexivity.
      * exists (length (strings.Split (extendTLDs fl) comma)).
        rewrite app_nil_r. symmetry. apply firstn_all.
      * exists (length (oks ++ [z])). simpl.
        change (oks ++ z :: rest) with (oks ++ [z] ++ rest).
        rewrite app_assoc. symmetry. apply firstn_prefix.
  - destruct (@main_cancel W svc fl w) as (done & tail & Hc & Hcase).
    rewrite <- lookup_zones_cancel_calls, Hc, lookup_zones_app,
      lookup_zones_ok.
    destruct Hcase as [(-> & [(-> & _)|(Hd & _)])
                      |(z & id & e & rest & Ht & -> & _)].
    + exists 0. reflexivity.
    + exists (length (strings.Split (cancelTLDs fl) comma)).
      rewrite Hd, app_nil_r. symmetry. apply firstn_all.
    + exists (length (map fst done ++ [z])).
      change (map fst done ++ z :: rest) with (map fst done ++ [z] ++ rest).
      rewrite app_assoc, firstn_prefix.
      destruct Ht as [-> | ->]; reflexivity.
Qed.

(** Without a cancel list, the one empty token of the empty string is
    what the lookup is called with. *)
Example empty_cancel_list_is_looked_up :
  cancelTLDs Cases.extend_e = EmptyString /\
  lookup_zones (events (Stub.run Stub.all_good Cases.extend_e))
  = [EmptyString].
Proof. vm_compute. split; reflexivity. Qed.

Lemma explicit_list_is_split_verbatim_witness :
  In (EvRequestTLDs ["a"; ""; "a"] "r" None)
     (events (Stub.run Stub.all_good Cases.request_dups)) /\
  ["a"; ""; "a"] = strings.Split (requestTLDs Cases.request_dups) comma.
Proof.
  assert (H : In (EvRequestTLDs ["a"; ""; "a"] "r" None)
                 (events (Stub.run Stub.all_good Cases.request_dups)))
    by (vm_compute; auto).
  split; [exact H|].
  exact (proj1 (proj2 (@explicit_list_is_split_verbatim
                         nat (Stub.service Stub.all_good)
                         Cases.request_dups 0 EmptyString))
               _ _ _ H).
Defined.

(** C8.  In explicit request mode: once the request workflow is reached
    with a reason, exactly one request call is made, carrying the split
    input list and the reason; when it returns an error the process exits
    with status 1 and nothing is reported, otherwise the list reported as
    requested is that same input list.  A whole run of [main] has this one
    call, or none when it ended before it. *)
Theorem request_explicit_one_call
        (W : Type) (svc : Service W) (fl : Flags) (w w' : W)
        (err : option error) :
  requestAll fl = false ->
  (doRequest fl = true -> reason fl <> EmptyString ->
   exists a,
     request_calls (events (requestBlock svc fl err w'))
     = [EvRequestTLDs (strings.Split (requestTLDs fl) comma) (reason fl) a] /\
     match a with
     | Some _ =>
         result (requestBlock svc fl err w') = Exit 1 /\
         requested (events (requestBlock svc fl err w')) = []
     | None =>
         result (requestBlock svc fl err w') = Ok None /\
         requested (events (requestBlock svc fl err w'))
         = [strings.Split (requestTLDs fl) comma]
     end) /\
  ((request_calls (events (main svc fl w)) = [] /\
    requested (events (main svc fl w)) = [] /\
    (doRequest fl = true -> result (main svc fl w) <> Ok tt)) \/
   (exists a,
       request_calls (events (main svc fl w))
       = [EvRequestTLDs (strings.Split (requestTLDs fl) comma)
                        (reason fl) a] /\
       match a with
       | Some _ =>
           result (main svc fl w) = Exit 1 /\
           requested (events (main svc fl w)) = []
       | None =>
           requested (events (main svc fl w))
           = [strings.Split (requestTLDs fl) comma]
       end)).
Proof.
  intros H. split.
  - intros Hdo Hr. exact (@requestBlock_explicit W svc fl err w' H Hdo Hr).
  - exact (@main_request_explicit W svc fl H w).
Qed.

Lemma request_explicit_one_call_witness :
  requestAll Cases.request_dups = false /\
  ((request_calls (events (Stub.run Stub.all_good Cases.request_dups)) = [] /\
    requested (events (Stub.run Stub.all_good Cases.request_dups)) = [] /\
    (doRequest Cases.request_dups = true ->
     result (Stub.run Stub.all_good Cases.request_dups) <> Ok tt)) \/
   (exists a,
       request_calls (events (Stub.run Stub.all_good Cases.request_dups))
       = [EvRequestTLDs (strings.Split (requestTLDs Cases.request_dups) comma)
                        (reason Cases.request_dups) a] /\
       match a with
       | Some _ =>
           result (Stub.run Stub.all_good Cases.request_dups) = Exit 1 /\
           requested (events (Stub.run Stub.all_good Cases.request_dups)) = []
       | None =>
           requested (events (Stub.run Stub.all_good Cases.request_dups))
           = [strings.Split (requestTLDs Cases.request_dups) comma]
       end)).
Proof.
  split; [reflexivity|].
  apply (@request_explicit_one_call
           nat (Stub.service Stub.all_good) Cases.request_dups 0 0 None).
  reflexivity.
Defined.

(** The request call fails: one call, exit status 1, nothing reported. *)
Example request_call_fails :
  request_calls (events (Stub.run Cases.fail_request Cases.request_dups))
  = [EvRequestTLDs ["a"; ""; "a"] "r" (Some "request failed")] /\
  requested (events (Stub.run Cases.fail_request Cases.request_dups)) = [] /\
  result (Stub.run Cases.fail_request Cases.request_dups) = Exit 1.
Proof. vm_compute. repeat split. Qed.

(** C9.  The password source is consulted only when no password was given
    on the command line, and with the configured source; when it fails,
    the process exits with status 1 before the client is constructed and
    before any remote call. *)
Theorem password_source_only_without_password
        (W : Type) (svc : Service W) (fl : Flags) (w : W)
        (src : string) (x : string * option error) :
  In (EvGetpass src x) (events (main svc fl w)) ->
  password fl = EmptyString /\ src = passin fl /\
  (forall e, snd x = Some e ->
     result (main svc fl w) = Exit 1 /\
     (forall u p, ~ In (EvNewClient u p) (events (main svc fl w))) /\
     remote_calls (events (main svc fl w)) = []).
Proof. intros H. exact (@main_getpass W svc fl w src x H). Qed.

Lemma password_source_only_without_password_witness :
  In (EvGetpass "env:CZDS" ("secret", Some "getpass failed"))
     (events (Stub.run Cases.fail_getpass Cases.passin_only)) /\
  password Cases.passin_only = EmptyString /\
  result (Stub.run Cases.fail_getpass Cases.passin_only) = Exit 1 /\
  remote_calls (events (Stub.run Cases.fail_getpass Cases.passin_only)) = [].
Proof.
  assert (H : In (EvGetpass "env:CZDS" ("secret", Some "getpass failed"))
                 (events (Stub.run Cases.fail_getpass Cases.passin_only)))
    by (vm_compute; auto).
  destruct (@password_source_only_without_password
              nat (Stub.service Cases.fail_getpass) Cases.passin_only 0
              _ _ H) as (Hp & _ & Hx).
  destruct (Hx _ eq_refl) as (Hr & _ & Hc).
  repeat split; assumption.
Defined.

(** C10.  The exclusion list of every bulk call, request or extend, is the
    split of the [-exclude] string, hence never empty; without exclusions
    it is the list of the one empty string. *)
Theorem bulk_exclusions_never_empty
        (W : Type) (svc : Service W) (fl : Flags) (w : W)
        (e : Event) (ex : list string) :
  In e (events (main svc fl w)) ->
  bulk_exclusions e = Some ex ->
  ex = strings.Split (exclude fl) comma /\
  ex <> [] /\
  (exclude fl = EmptyString -> ex = [EmptyString]).
Proof.
  intros Hin Hb.
  pose proof (@main_bulk W svc fl w e ex Hin Hb) as H.
  unfold excludeList in H. subst ex.
  split; [reflexivity|]. split; [apply Split_nonempty|].
  intros ->. reflexivity.
Qed.

Lemma bulk_exclusions_never_empty_witness :
  In (EvExtendAllTLDsExcept [EmptyString] (["net"], None))
     (events (Stub.run Stub.all_good Cases.everything)) /\
  bulk_exclusions (EvExtendAllTLDsExcept [EmptyString] (["net"], None))
  = Some [EmptyString] /\
  [EmptyString] = strings.Split (exclude Cases.everything) comma.
Proof.
  assert (H : In (EvExtendAllTLDsExcept [EmptyString] (["net"], None))
                 (events (Stub.run Stub.all_good Cases.everything)))
    by (vm_compute; auto 20).
  split; [exact H|]. split; [reflexivity|].
  exact (proj1 (@bulk_exclusions_never_empty
                  nat (Stub.service Stub.all_good) Cases.everything 0
                  _ _ H eq_refl)).
Defined.

(** Both bulk calls of a run without [-exclude] carry the one empty
    exclusion. *)
Example bulk_calls_without_exclude :
  remote_calls (events (Stub.run Stub.all_good
                          (Stub.with_bulk true true "r" "" Stub.flags0)))
  = [EvAuthenticate None;
     EvRequestAllTLDsExcept "r" [EmptyString] (["com"], None);
     EvExtendAllTLDsExcept [EmptyString] (["net"], None)].
Proof. vm_compute. reflexivity. Qed.

(** * Further properties of the program *)

(** ** Exit discipline of lists of events *)

Lemma well_ended_cons_quiet x l c :
  exit_of x = None -> well_ended (x :: l) c = well_ended l c.
Proof.
  intros H. destruct l as [|y l]; simpl; rewrite H; simpl; [|reflexivity].
  destruct c; reflexivity.
Qed.

Lemma well_ended_cons_inv x l :
  well_ended (x :: l) None = true ->
  exit_of x = None /\ well_ended l None = true.
Proof.
  destruct l as [|y l]; simpl.
  - destruct (exit_of x); [discriminate | auto].
  - intros H. apply andb_prop in H. destruct H as [H1 H2].
    destruct (exit_of x); [discriminate | auto].
Qed.

Lemma well_ended_app l1 l2 c :
  well_ended l1 None = true -> well_ended (l1 ++ l2) c = well_ended l2 c.
Proof.
  induction l1 as [|x l IH]; intros H; [reflexivity|].
  apply well_ended_cons_inv in H. destruct H as [Hx Hl].
  change ((x :: l) ++ l2) with (x :: (l ++ l2)).
  rewrite well_ended_cons_quiet by exact Hx. now apply IH.
Qed.

Lemma well_ended_quiet evs :
  well_ended evs None = true -> Forall (fun e => exit_of e = None) evs.
Proof.
  induction evs as [|x l IH]; intros H; [constructor|].
  apply well_ended_cons_inv in H. destruct H as [Hx Hl].
  constructor; auto.
Qed.

Lemma quiet_well_ended evs :
  Forall (fun e => exit_of e = None) evs -> well_ended evs None = true.
Proof.
  induction 1 as [|x l Hx _ IH]; [reflexivity|].
  now rewrite well_ended_cons_quiet.
Qed.

Lemma same_code_eq a b : same_code a b = true -> a = b.
Proof.
  destruct a, b; simpl; try discriminate; auto.
  intros H. apply Nat.eqb_eq in H. now subst.
Qed.

Lemma well_ended_last evs c :
  well_ended evs (Some c) = true ->
  exists pre x, evs = pre ++ [x] /\
                Forall (fun e => exit_of e = None) pre /\
                exit_of x = Some c.
Proof.
  induction evs as [|x l IH]; simpl; [discriminate|].
  destruct l as [|y l].
  - intros H. apply same_code_eq in H. exists [], x. auto.
  - intros H. apply andb_prop in H. destruct H as [H1 H2].
    apply same_code_eq in H1.
    destruct (IH H2) as (pre & z & E & Hq & Hz).
    exists (x :: pre), z. rewrite E. split; [reflexivity|].
    split; [constructor; assumption | exact Hz].
Qed.

Lemma failures_end_cons_ok x l c :
  failed x = false -> failures_end (x :: l) c = failures_end l c.
Proof.
  intros H. destruct l as [|y l]; simpl; rewrite H; reflexivity.
Qed.

Lemma failures_end_none_inv x l :
  failures_end (x :: l) None = true ->
  failed x = false /\ failures_end l None = true.
Proof.
  destruct l as [|y l]; simpl.
  - destruct (failed x); [discriminate | auto].
  - intros H. apply andb_prop in H. destruct H as [H1 H2].
    destruct (failed x); [discriminate | auto].
Qed.

Lemma failures_end_app l1 l2 c :
  failures_end l1 None = true ->
  failures_end (l1 ++ l2) c = failures_end l2 c.
Proof.
  induction l1 as [|x l IH]; intros H; [reflexivity|].
  apply failures_end_none_inv in H. destruct H as [Hx Hl].
  change ((x :: l) ++ l2) with (x :: (l ++ l2)).
  rewrite failures_end_cons_ok by exact Hx. now apply IH.
Qed.

(** What [failures_end] says, call by call. *)
Lemma failures_end_split l c pre x post :
  failures_end l c = true -> l = pre ++ x :: post -> failed x = true ->
  post = [] /\ c = Some 1.
Proof.
  revert l. induction pre as [|y pre IH]; intros l H -> Hx.
  - destruct post as [|z post]; simpl in H; rewrite Hx in H.
    + apply same_code_eq in H. auto.
    + discriminate.
  - change ((y :: pre) ++ x :: post) with (y :: (pre ++ x :: post)) in H.
    destruct (failed y) eqn:Hy.
    + destruct (pre ++ x :: post) eqn:E; [now destruct pre|].
      simpl in H. rewrite Hy in H. discriminate.
    + rewrite failures_end_cons_ok in H by exact Hy.
      exact (IH _ H eq_refl Hx).
Qed.

Lemma tidy_app {A B} e1 (a : A) e2 (r : Res B) :
  tidy e1 (Ok a) -> tidy e2 r -> tidy (e1 ++ e2) r.
Proof.
  intros [H1 H2] [H3 H4]. split.
  - now rewrite well_ended_app.
  - rewrite remote_calls_app. now rewrite failures_end_app.
Qed.

Lemma sat_bind_tidy {W A B} (m : M W A) (f : A -> M W B) :
  sat m (@tidy A) -> (forall a, sat (f a) (@tidy B)) -> sat (bind m f) (@tidy B).
Proof.
  intros Hm Hf. apply sat_bind.
  eapply sat_conseq; [exact Hm|]. cbv beta. intros e1 r H.
  destruct r as [a|c].
  - eapply sat_conseq; [apply Hf|]. cbv beta. intros e2 r2 H2.
    exact (tidy_app H H2).
  - exact H.
Qed.

(** ** The blocks, once more *)

Ltac open_vlog := unfold vlog; destruct (verbose _); simpl app.

Section Tidy.
Variable W : Type.
Variable svc : Service W.
Variable fl : Flags.

Lemma printAll_events l :
  sat (@printAll W l)
      (fun evs r => evs = map (fun t => EvPrint (status_line t)) l /\
                    r = Ok tt).
Proof.
  induction l as [|t l IH]; simpl; [sat_run; auto|].
  unfold printTLDStatus. sat_run.
  eapply sat_conseq; [exact IH|]. cbv beta. intros evs r [-> ->].
  split; reflexivity.
Qed.

Lemma extendLoop_more tlds : forall err,
  sat (extendLoop svc fl tlds err)
      (fun evs r =>
         well_ended evs None = true /\
         printed 5 evs = [] /\
         exists err',
           r = Ok err' /\
           failures_end (remote_calls evs)
                        (match err' with Some _ => Some 1 | None => None end)
           = true).
Proof.
  induction tlds as [|tld rest IH]; intros err; simpl.
  - sat_run. repeat split. exists err. split; reflexivity.
  - sat_run.
    + open_vlog; (repeat split; [eexists; split; reflexivity]).
    + eapply sat_conseq; [apply IH|]. cbv beta.
      intros evs r' (Hw & Hp & err' & -> & Hf).
      open_vlog; rewrite ?well_ended_cons_quiet by reflexivity;
        (split; [exact Hw|]); (split; [exact Hp|]);
        exists err'; (split; [reflexivity|]); simpl remote_calls;
        rewrite failures_end_cons_ok by reflexivity; exact Hf.
Qed.

Lemma cancelLoop_more tlds : forall err,
  sat (cancelLoop svc fl tlds err)
      (fun evs r =>
         well_ended evs None = true /\
         printed 6 evs = [] /\
         exists err',
           r = Ok err' /\
           failures_end (remote_calls evs)
                        (match err' with Some _ => Some 1 | None => None end)
           = true).
Proof.
  induction tlds as [|tld rest IH]; intros err; simpl.
  - sat_run. repeat split. exists err. split; reflexivity.
  - sat_run.
    eapply sat_conseq; [apply cancelRequest_spec|]. cbv beta.
    intros evs r [(id & e & -> & ->)|[(id & e & -> & ->)|(id & -> & ->)]];
      cbv beta iota.
    + sat_run. open_vlog; (repeat split; [eexists; split; reflexivity]).
    + sat_run. open_vlog; (repeat split; [eexists; split; reflexivity]).
    + eapply sat_conseq; [apply IH|]. cbv beta.
      intros evs r' (Hw & Hp & err' & -> & Hf).
      unfold cancelled_ok. simpl fst. simpl snd.
      open_vlog; rewrite ?well_ended_cons_quiet by reflexivity;
        (split; [exact Hw|]); (split; [exact Hp|]);
        exists err'; (split; [reflexivity|]); simpl remote_calls;
        rewrite !failures_end_cons_ok by reflexivity; exact Hf.
Qed.

Ltac tidy_tac :=
  unfold tidy; try open_vlog;
  repeat match goal with
    | r : (_ * _)%type |- _ => destruct r
    end;
  simpl in *; subst; split; reflexivity.

Lemma checkFlags_tidy : sat (@checkFlags W fl) (@tidy unit).
Proof. unfold checkFlags. sat_run; tidy_tac. Qed.

Lemma getPassword_tidy : sat (getPassword svc fl) (@tidy string).
Proof. unfold getPassword. sat_run; tidy_tac. Qed.

Lemma checkIntent_tidy : sat (@checkIntent W fl) (@tidy unit).
Proof. unfold checkIntent. sat_run; tidy_tac. Qed.

Lemma newClient_tidy p : sat (newClient svc fl p) (@tidy unit).
Proof. unfold newClient. sat_run; tidy_tac. Qed.

Lemma authenticate_tidy : sat (authenticate svc fl) (@tidy (option error)).
Proof. unfold authenticate. sat_run; tidy_tac. Qed.

Lemma termsBlock_tidy : sat (termsBlock svc fl) (@tidy unit).
Proof. unfold termsBlock. sat_run; tidy_tac. Qed.

Lemma status_lines_quiet (l : list TLDStatus) :
  well_ended (map (fun t => EvPrint (status_line t)) l) None = true /\
  remote_calls (map (fun t => EvPrint (status_line t)) l) = [].
Proof.
  induction l as [|t l [IH1 IH2]]; [split; reflexivity|].
  split; [|exact IH2].
  change (map (fun t => EvPrint (status_line t)) (t :: l))
    with (EvPrint (status_line t) :: map (fun t => EvPrint (status_line t)) l).
  now rewrite well_ended_cons_quiet.
Qed.

Lemma statusBlock_tidy : sat (statusBlock svc fl) (@tidy unit).
Proof.
  unfold statusBlock. sat_run; try tidy_tac.
  eapply sat_conseq; [apply printAll_events|]. cbv beta.
  intros evs r' [-> ->]. destruct r as [l o]. cbn [fst snd] in *. subst o.
  destruct (status_lines_quiet l) as [H1 H2].
  split.
  - change ([EvGetTLDStatus (l, None)] ++
            map (fun t => EvPrint (status_line t)) l)
      with (EvGetTLDStatus (l, None) ::
            map (fun t => EvPrint (status_line t)) l).
    now rewrite well_ended_cons_quiet.
  - rewrite remote_calls_app, H2. reflexivity.
Qed.

Lemma requestBlock_tidy err :
  sat (requestBlock svc fl err) (@tidy (option error)).
Proof. unfold requestBlock. sat_run; tidy_tac. Qed.

Lemma extendBlock_tidy err :
  sat (extendBlock svc fl err) (@tidy (option error)).
Proof.
  unfold extendBlock. sat_run; try tidy_tac.
  eapply sat_conseq; [apply extendLoop_more|]. cbv beta.
  intros evs r (Hw & _ & err' & -> & Hf). cbv beta iota.
  sat_run; simpl fst in *; simpl snd in *; subst; unfold tidy;
    rewrite ?app_nil_r;
    (split;
     [ first [rewrite well_ended_app by exact Hw; reflexivity | exact Hw]
     | rewrite ?remote_calls_app; simpl; rewrite ?app_nil_r; exact Hf ]).
Qed.

Lemma cancelBlock_tidy err : sat (cancelBlock svc fl err) (@tidy unit).
Proof.
  unfold cancelBlock. sat_run; try tidy_tac.
  eapply sat_conseq; [apply cancelLoop_more|]. cbv beta.
  intros evs r (Hw & _ & err' & -> & Hf). cbv beta iota.
  sat_run; subst; unfold tidy;
    rewrite ?app_nil_r;
    (split;
     [ first [rewrite well_ended_app by exact Hw; reflexivity | exact Hw]
     | rewrite ?remote_calls_app; simpl; rewrite ?app_nil_r; exact Hf ]).
Qed.

(** Every run of [main] ends in order: see [tidy]. *)
Lemma main_tidy : sat (main svc fl) (@tidy unit).
Proof.
  unfold main.
  apply sat_bind_tidy; [apply checkFlags_tidy | intros _].
  apply sat_bind_tidy; [apply getPassword_tidy | intros p].
  apply sat_bind_tidy; [apply checkIntent_tidy | intros _].
  apply sat_bind_tidy; [apply newClient_tidy | intros _].
  apply sat_bind_tidy; [apply authenticate_tidy | intros err].
  apply sat_bind_tidy; [apply termsBlock_tidy | intros _].
  apply sat_bind_tidy; [apply statusBlock_tidy | intros _].
  apply sat_bind_tidy; [apply requestBlock_tidy | intros err1].
  apply sat_bind_tidy; [apply extendBlock_tidy | intros err2].
  apply cancelBlock_tidy.
Qed.

End Tidy.

(** ** The events of each block *)

Lemma len_not_0 (s : string) : (len s =? 0) = false -> s <> EmptyString.
Proof. destruct s; simpl; [discriminate | discriminate]. Qed.

Ltac clauses :=
  repeat split; simpl; try reflexivity; try discriminate; try assumption;
  auto using len_0, len_not_0; try congruence.

Ltac pick :=
  first [ solve [clauses]
        | solve [left; clauses]
        | solve [right; left; clauses]
        | solve [right; right; left; clauses]
        | solve [right; right; right; clauses]
        | solve [right; right; clauses]
        | solve [right; clauses] ].

Section Shapes.
Variable W : Type.
Variable svc : Service W.
Variable fl : Flags.

Lemma checkFlags_shape :
  sat (@checkFlags W fl)
      (fun evs r =>
         in_stage 0 evs /\
         ((showVersion fl = true /\
           evs = [EvPrint (OutVersion version)] /\ r = Exit 0) \/
          (showVersion fl = false /\ flag_complaints fl = [] /\
           evs = [] /\ r = Ok tt) \/
          (showVersion fl = false /\ flag_complaints fl <> [] /\
           evs = flag_complaints fl ++ [EvPrintDefaults] /\ r = Exit 1))).
Proof.
  unfold checkFlags, flag_complaints.
  sat_run; (split; [stage_tac|]); pick.
Qed.

Lemma getPassword_shape :
  sat (getPassword svc fl)
      (fun evs r =>
         in_stage 0 evs /\
         ((password fl <> EmptyString /\ evs = [] /\ r = Ok (password fl)) \/
          (password fl = EmptyString /\
           exists p, evs = [EvGetpass (passin fl) (p, None)] /\ r = Ok p) \/
          (password fl = EmptyString /\
           exists p e,
             evs = [EvGetpass (passin fl) (p, Some e);
                    EvLogFatal ("Unable to get password from user: " ++ e)] /\
             r = Exit 1))).
Proof.
  unfold getPassword. sat_run; (split; [stage_tac|]);
    try destruct r as [p o]; simpl in *; subst.
  - right. right. split; [auto using len_0|]. exists p, e. auto.
  - right. left. split; [auto using len_0|]. exists p. auto.
  - left. split; [auto using len_not_0|]. auto.
Qed.

Lemma checkIntent_shape :
  sat (@checkIntent W fl)
      (fun evs r =>
         in_stage 0 evs /\
         ((nothing_to_do fl = true /\
           evs = [EvLogFatal "Nothing to do!"] /\ r = Exit 1) \/
          (nothing_to_do fl = false /\ evs = [] /\ r = Ok tt))).
Proof.
  unfold checkIntent. fold (nothing_to_do fl).
  sat_run; (split; [stage_tac|]); pick.
Qed.

Lemma newClient_shape p :
  sat (newClient svc fl p)
      (fun evs r =>
         in_stage 0 evs /\
         evs = EvNewClient (username fl) p ::
               (if verbose fl then [EvSetLogger] else []) /\
         r = Ok tt).
Proof.
  unfold newClient. sat_run; (split; [stage_tac|]); pick.
Qed.

Lemma authenticate_shape :
  sat (authenticate svc fl)
      (fun evs r =>
         in_stage 1 evs /\
         exists a,
           evs = vlog fl ("Authenticating to " ++ AuthURL svc) ++
                 EvAuthenticate a ::
                 match a with Some e => [EvLogFatal e] | None => [] end /\
           r = match a with Some _ => Exit 1 | None => Ok None end).
Proof.
  unfold authenticate. sat_run; (split; [stage_tac|]).
  - exists (Some e). split; reflexivity.
  - exists None. split; reflexivity.
Qed.

Lemma termsBlock_shape :
  sat (termsBlock svc fl)
      (fun evs r =>
         in_stage 2 evs /\
         ((printTerms fl = false /\ evs = [] /\ r = Ok tt) \/
          (printTerms fl = true /\
           exists t,
             evs = EvGetTerms (t, None) ::
                   vlog fl ("Terms Version " ++ Version t) ++
                   [EvPrint OutTermsHeader;
                    EvPrint (OutTermsContent (Content t))] /\
             r = Ok tt) \/
          (printTerms fl = true /\
           exists t e,
             evs = [EvGetTerms (t, Some e); EvLogFatal e] /\ r = Exit 1))).
Proof.
  unfold termsBlock. sat_run; (split; [stage_tac|]);
    try destruct r as [t o]; simpl in *; subst.
  - right. right. split; [reflexivity|]. exists t, e. auto.
  - right. left. split; [reflexivity|]. exists t.
    split; reflexivity.
  - left. auto.
Qed.

Lemma statusBlock_events :
  sat (statusBlock svc fl)
      (fun evs r =>
         (status fl = false /\ evs = [] /\ r = Ok tt) \/
         (status fl = true /\
          exists l,
            evs = EvGetTLDStatus (l, None) ::
                  map (fun t => EvPrint (status_line t)) l /\
            r = Ok tt) \/
         (status fl = true /\
          exists l e,
            evs = [EvGetTLDStatus (l, Some e); EvLogFatal e] /\
            r = Exit 1)).
Proof.
  unfold statusBlock. sat_run.
  - destruct r as [l o]; simpl in *; subst.
    right. right. split; [reflexivity|]. exists l, e. auto.
  - eapply sat_conseq; [apply printAll_events|]. cbv beta.
    intros evs r' [-> ->]. destruct r as [l o]; simpl in *; subst.
    right. left. split; [reflexivity|]. exists l. auto.
  - left. auto.
Qed.

Lemma statusBlock_shape :
  sat (statusBlock svc fl)
      (fun evs r =>
         in_stage 3 evs /\
         ((status fl = false /\ evs = [] /\ r = Ok tt) \/
          (status fl = true /\
           exists l,
             evs = EvGetTLDStatus (l, None) ::
                   map (fun t => EvPrint (status_line t)) l /\
             r = Ok tt) \/
          (status fl = true /\
           exists l e,
             evs = [EvGetTLDStatus (l, Some e); EvLogFatal e] /\
             r = Exit 1))).
Proof.
  intros w. split; [exact (proj1 (@statusBlock_spec W svc fl w))|].
  exact (statusBlock_events w).
Qed.

Ltac norm_events :=
  simpl app; rewrite ?app_nil_r, <- ?app_assoc; simpl app.

Lemma requestBlock_shape err :
  sat (requestBlock svc fl err)
      (fun evs r =>
         in_stage 4 evs /\
         ((doRequest fl = false /\ evs = [] /\ r = Ok err) \/
          (doRequest fl = true /\ reason fl = EmptyString /\
           evs = [EvLogFatal "Must pass a reason to request TLDs"] /\
           r = Exit 1) \/
          (doRequest fl = true /\ reason fl <> EmptyString /\
           requestAll fl = true /\
           exists l a,
             evs = vlog fl "Requesting all TLDs" ++
                   EvRequestAllTLDsExcept (reason fl) (excludeList fl) (l, a) ::
                   match a with
                   | Some e => [EvLogFatal e]
                   | None => if 0 <? length l
                             then [EvPrint (OutRequested l)] else []
                   end /\
             r = match a with Some _ => Exit 1 | None => Ok None end) \/
          (doRequest fl = true /\ reason fl <> EmptyString /\
           requestAll fl = false /\
           exists a,
             evs = vlog fl ("Requesting " ++
                            fmt_v (strings.Split (requestTLDs fl) comma)) ++
                   EvRequestTLDs (strings.Split (requestTLDs fl) comma)
                                 (reason fl) a ::
                   match a with
                   | Some e => [EvLogFatal e]
                   | None => [EvPrint (OutRequested
                                (strings.Split (requestTLDs fl) comma))]
                   end /\
             r = match a with Some _ => Exit 1 | None => Ok None end))).
Proof.
  unfold requestBlock. sat_run; simpl fst in *; simpl snd in *; subst;
    try rewrite Split_length_pos in *; try discriminate;
    (split; [stage_tac|]); try destruct r as [l o]; simpl in *; subst;
    norm_events.
  - right. left. clauses.
  - right. right. left. (repeat (split; [clauses; fail|])).
    exists l, (Some e). split; reflexivity.
  - right. right. left. (repeat (split; [clauses; fail|])).
    exists l, None.
    match goal with H : (0 <? length _) = _ |- _ => rewrite H end.
    split; reflexivity.
  - right. right. left. (repeat (split; [clauses; fail|])).
    exists l, None.
    match goal with H : (0 <? length _) = _ |- _ => rewrite H end.
    split; reflexivity.
  - right. right. right. (repeat (split; [clauses; fail|])).
    exists (Some e). split; reflexivity.
  - right. right. right. (repeat (split; [clauses; fail|])).
    exists None. split; reflexivity.
  - left. clauses.
Qed.

Lemma extendBlock_bulk err :
  extendAll fl = true ->
  sat (extendBlock svc fl err)
      (fun evs r =>
         exists l a,
           evs = vlog fl "Requesting extension for all TLDs" ++
                 EvExtendAllTLDsExcept (excludeList fl) (l, a) ::
                 match a with
                 | Some e => [EvLogFatal e]
                 | None => if 0 <? length l
                           then [EvPrint (OutExtended l)] else []
                 end /\
           r = match a with Some _ => Exit 1 | None => Ok None end).
Proof.
  intros Hall. unfold extendBlock, doExtend. rewrite Hall. simpl orb.
  cbv iota. sat_run; simpl fst in *; simpl snd in *; subst;
    destruct r as [l o]; simpl in *; subst; norm_events.
  - exists l, (Some e). split; reflexivity.
  - exists l, None.
    match goal with H : (0 <? length _) = _ |- _ => rewrite H end.
    split; reflexivity.
  - exists l, None.
    match goal with H : (0 <? length _) = _ |- _ => rewrite H end.
    split; reflexivity.
Qed.

Lemma extendBlock_shape err :
  sat (extendBlock svc fl err)
      (fun evs r =>
         in_stage 5 evs /\
         (extendAll fl = true ->
          exists l a,
            evs = vlog fl "Requesting extension for all TLDs" ++
                  EvExtendAllTLDsExcept (excludeList fl) (l, a) ::
                  match a with
                  | Some e => [EvLogFatal e]
                  | None => if 0 <? length l
                            then [EvPrint (OutExtended l)] else []
                  end /\
            r = match a with Some _ => Exit 1 | None => Ok None end)).
Proof.
  intros w. split; [exact (proj1 (@extendBlock_spec W svc fl err w))|].
  intros Hall. exact (extendBlock_bulk err Hall w).
Qed.

Lemma cancelLoop_both tlds err :
  sat (cancelLoop svc fl tlds err)
      (fun evs r =>
         (exists done tail,
             cancel_calls evs = flat_map cancelled_ok done ++ tail /\
             ((tail = [] /\ map fst done = tlds /\
               r = Ok (match tlds with [] => err | _ => None end)) \/
              (exists z id e rest,
                  (tail = [EvGetZoneRequestID z (id, Some e)] \/
                   tail = [EvGetZoneRequestID z (id, None);
                           EvCancelRequest
                             {| RequestID := id; TLDName := z |} (Some e)]) /\
                  tlds = map fst done ++ z :: rest /\
                  r = Ok (Some e)))) /\
         printed 6 evs = []).
Proof.
  intros w. split.
  - exact (proj2 (@cancelLoop_spec W svc fl tlds err w)).
  - exact (proj1 (proj2 (@cancelLoop_more W svc fl tlds err w))).
Qed.

Lemma printed_app k l1 l2 : printed k (l1 ++ l2) = printed k l1 ++ printed k l2.
Proof. apply flat_map_app. Qed.

Lemma cancelBlock_shape err :
  sat (cancelBlock svc fl err)
      (fun evs r =>
         in_stage 6 evs /\
         ((doCancel fl = false /\ evs = [] /\ r = Ok tt) \/
          (doCancel fl = true /\
           printed 6 evs = [OutCanceled (strings.Split (cancelTLDs fl) comma)] /\
           lookup_zones evs = strings.Split (cancelTLDs fl) comma /\
           (exists done,
               cancel_calls evs = flat_map cancelled_ok done /\
               map fst done = strings.Split (cancelTLDs fl) comma) /\
           r = Ok tt) \/
          (doCancel fl = true /\ printed 6 evs = [] /\ r = Exit 1))).
Proof.
  intros w. split; [exact (proj1 (@cancelBlock_spec W svc fl err w))|].
  revert w. change (sat (cancelBlock svc fl err)
    (fun evs r =>
       (doCancel fl = false /\ evs = [] /\ r = Ok tt) \/
       (doCancel fl = true /\
        printed 6 evs = [OutCanceled (strings.Split (cancelTLDs fl) comma)] /\
        lookup_zones evs = strings.Split (cancelTLDs fl) comma /\
        (exists done,
            cancel_calls evs = flat_map cancelled_ok done /\
            map fst done = strings.Split (cancelTLDs fl) comma) /\
        r = Ok tt) \/
       (doCancel fl = true /\ printed 6 evs = [] /\ r = Exit 1))).
  unfold cancelBlock. sat_run; [|left; auto].
  eapply sat_conseq; [apply cancelLoop_both|]. cbv beta.
  intros evs r ((done & tail & Hc & Hcase) & Hp).
  pose proof (Split_nonempty (cancelTLDs fl) comma) as Hne.
  pose proof (Split_length_pos (cancelTLDs fl) comma) as Hlen.
  destruct Hcase as [(-> & Hd & ->)|(z & id & e & rest & Ht & Hd & ->)].
  - destruct (strings.Split (cancelTLDs fl) comma) as [|t0 ts] eqn:Hs;
      [congruence|].
    sat_run; try discriminate.
    right. left. split; [reflexivity|].
    rewrite printed_app, Hp. split; [reflexivity|].
    split; [|split; [|reflexivity]].
    + rewrite lookup_zones_app, <- (lookup_zones_cancel_calls evs), Hc,
        !app_nil_r, lookup_zones_ok, Hd.
      simpl. now rewrite ?app_nil_r.
    + exists done. split; [|exact Hd].
      rewrite cancel_calls_app, Hc. simpl. now rewrite !app_nil_r.
  - sat_run. right. right. split; [reflexivity|].
    rewrite printed_app, Hp. split; reflexivity.
Qed.

End Shapes.

(** ** Projections by stage *)

Lemma calls_of_app k l1 l2 :
  calls_of k (l1 ++ l2) = calls_of k l1 ++ calls_of k l2.
Proof. apply filter_app. Qed.

Lemma calls_of_other k j evs :
  in_stage j evs -> j <> k -> calls_of k evs = [].
Proof.
  intros H Hjk. apply (@filter_other_stage _ j k evs); auto.
  intros e He. apply andb_prop in He. destruct He as [_ He].
  destruct (stage e) as [i|]; [|discriminate].
  apply Nat.eqb_eq in He. now subst.
Qed.

Lemma printed_other k j evs :
  in_stage j evs -> j <> k -> printed k evs = [].
Proof.
  intros H Hjk. apply (@flat_map_other_stage _ _ j k evs); auto.
  intros e He. destruct e; try (now elim He).
  destruct (stage (EvPrint o)) as [i|] eqn:Hs; [|now elim He].
  destruct (i =? k) eqn:E; [|now elim He].
  apply Nat.eqb_eq in E. now subst.
Qed.

(** The calls of a block of stage [k] are its calls of that stage. *)
Lemma calls_of_own k evs :
  in_stage k evs -> calls_of k evs = remote_calls evs.
Proof.
  induction 1 as [|e l He _ IH]; [reflexivity|].
  unfold calls_of, remote_calls in *. simpl. rewrite IH.
  destruct (is_remote e) eqn:Hr; [|reflexivity]. simpl.
  destruct (stage e) as [j|] eqn:Hs.
  - rewrite (He j eq_refl), Nat.eqb_refl. reflexivity.
  - destruct e; simpl in *; discriminate.
Qed.

Lemma remote_calls_vlog fl m l : remote_calls (vlog fl m ++ l) = remote_calls l.
Proof. unfold vlog. destruct (verbose fl); reflexivity. Qed.

Lemma printed_vlog k fl m l : printed k (vlog fl m ++ l) = printed k l.
Proof. unfold vlog. destruct (verbose fl); reflexivity. Qed.

Lemma status_lines_printed (l : list TLDStatus) :
  printed 3 (map (fun t => EvPrint (status_line t)) l) = map status_line l.
Proof. induction l as [|t l IH]; simpl; [reflexivity | now rewrite IH]. Qed.

(** ** Chaining the events of the blocks along [main] *)

Ltac shape_step :=
  match goal with
  | |- sat (bind _ _) _ => apply sat_bind
  | |- sat (checkFlags _) _ =>
      let e := fresh "e_cf" in let H := fresh "H_cf" in
      use_spec checkFlags_shape e H
  | |- sat (getPassword _ _) _ =>
      let e := fresh "e_pw" in let H := fresh "H_pw" in
      use_spec getPassword_shape e H
  | |- sat (checkIntent _) _ =>
      let e := fresh "e_in" in let H := fresh "H_in" in
      use_spec checkIntent_shape e H
  | |- sat (newClient _ _ _) _ =>
      let e := fresh "e_nc" in let H := fresh "H_nc" in
      use_spec newClient_shape e H
  | |- sat (authenticate _ _) _ =>
      let e := fresh "e_au" in let H := fresh "H_au" in
      use_spec authenticate_shape e H
  | |- sat (termsBlock _ _) _ =>
      let e := fresh "e_tm" in let H := fresh "H_tm" in
      use_spec termsBlock_shape e H
  | |- sat (statusBlock _ _) _ =>
      let e := fresh "e_st" in let H := fresh "H_st" in
      use_spec statusBlock_shape e H
  | |- sat (requestBlock _ _ _) _ =>
      let e := fresh "e_rq" in let H := fresh "H_rq" in
      use_spec requestBlock_shape e H
  | |- sat (extendBlock _ _ _) _ =>
      let e := fresh "e_ex" in let H := fresh "H_ex" in
      use_spec extendBlock_shape e H
  | |- sat (cancelBlock _ _ _) _ =>
      let e := fresh "e_cn" in let H := fresh "H_cn" in
      use_spec cancelBlock_shape e H
  end.

Ltac shape_run :=
  unfold main; repeat shape_step;
  try solve [exfalso;
             match goal with
             | H : _ /\ _ /\ Exit _ = Ok _ |- _ =>
                 destruct H as (_ & _ & H); discriminate H
             end];
  stage_facts.

(** Drops the projections by stage of the blocks of other stages, and
    turns the calls of a stage in its own block into the block's calls. *)
Ltac drop_stages :=
  rewrite ?calls_of_app, ?printed_app, ?remote_calls_app;
  repeat match goal with
    | H : in_stage ?j ?e |- context [calls_of ?k ?e] =>
        first [ rewrite (@calls_of_other k j e H) by discriminate
              | rewrite (@calls_of_own k e H) ]
    | H : in_stage ?j ?e |- context [printed ?k ?e] =>
        rewrite (@printed_other k j e H) by discriminate
    | H : in_stage 0 ?e |- context [remote_calls ?e] =>
        rewrite (@remote_calls_setup e H)
    end;
  simpl app; rewrite ?app_nil_r.

Lemma printed_cons_vlog k x fl m l :
  printed k (x :: vlog fl m ++ l) = printed k (x :: l).
Proof. unfold vlog. destruct (verbose fl); reflexivity. Qed.

Lemma remote_calls_cons_vlog x fl m l :
  remote_calls (x :: vlog fl m ++ l) = remote_calls (x :: l).
Proof.
  unfold vlog. destruct (verbose fl); [|reflexivity].
  unfold remote_calls. simpl. reflexivity.
Qed.

Ltac no_vlog :=
  rewrite ?printed_vlog, ?remote_calls_vlog, ?printed_cons_vlog,
    ?remote_calls_cons_vlog.

Lemma lookup_zones_other k evs :
  in_stage k evs -> k <> 6 -> lookup_zones evs = [].
Proof.
  intros H Hk. apply (@flat_map_other_stage _ _ k 6 evs); auto.
  intros e; destruct e; simpl; congruence.
Qed.

(** Membership in an explicit list that does not hold the event. *)
Ltac in_false Hin :=
  simpl in Hin;
  repeat (destruct Hin as [Hin|Hin]; [discriminate Hin|]);
  destruct Hin.

Section MainShapes.
Variable W : Type.
Variable svc : Service W.
Variable fl : Flags.

Lemma main_version :
  showVersion fl = true ->
  sat (main svc fl)
      (fun evs r => evs = [EvPrint (OutVersion version)] /\ r = Exit 0).
Proof.
  intros Hv. unfold main. apply sat_bind.
  eapply sat_conseq; [apply checkFlags_shape|]. cbv beta.
  intros e r (_ & [(_ & -> & ->)|[(H & _)|(H & _)]]);
    [split; reflexivity | congruence | congruence].
Qed.

Lemma flag_complaints_some :
  username fl = EmptyString \/
  (password fl = EmptyString /\ passin fl = EmptyString) ->
  flag_complaints fl <> [].
Proof.
  unfold flag_complaints. intros [H|[H1 H2]].
  - rewrite H. discriminate.
  - rewrite H1, H2. simpl. destruct (len (username fl) =? 0); discriminate.
Qed.

Lemma main_flag_errors :
  showVersion fl = false ->
  username fl = EmptyString \/
  (password fl = EmptyString /\ passin fl = EmptyString) ->
  sat (main svc fl)
      (fun evs r =>
         evs = flag_complaints fl ++ [EvPrintDefaults] /\ r = Exit 1).
Proof.
  intros Hv Hbad. apply flag_complaints_some in Hbad.
  unfold main. apply sat_bind.
  eapply sat_conseq; [apply checkFlags_shape|]. cbv beta.
  intros e r (_ & [(H & _)|[(_ & H & _)|(_ & _ & -> & ->)]]);
    [congruence | congruence | split; reflexivity].
Qed.

Lemma no_intent :
  printTerms fl = false -> status fl = false ->
  requestAll fl = false -> requestTLDs fl = EmptyString ->
  extendAll fl = false -> extendTLDs fl = EmptyString ->
  nothing_to_do fl = true.
Proof.
  unfold nothing_to_do, doRequest, doExtend, doCancel.
  intros -> -> -> -> -> ->. reflexivity.
Qed.

Lemma main_nothing_to_do :
  showVersion fl = false -> nothing_to_do fl = true ->
  sat (main svc fl)
      (fun evs r =>
         r = Exit 1 /\
         remote_calls evs = [] /\
         (forall u p, ~ In (EvNewClient u p) evs) /\
         (flag_complaints fl = [] -> password fl <> EmptyString ->
          evs = [EvLogFatal "Nothing to do!"])).
Proof.
  intros Hv Hn. unfold main.
  apply sat_bind. use_spec checkFlags_shape e_cf H_cf.
  - destruct H_cf as (_ & [(Hc & _)|[(_ & Hfc & -> & _)|(_ & _ & _ & Hr)]]);
      [congruence | | discriminate Hr].
    apply sat_bind. use_spec getPassword_shape e_pw H_pw.
    + apply sat_bind. use_spec checkIntent_shape e_in H_in.
      * exfalso.
        destruct H_in as (_ & [(_ & _ & Hr)|(Hc & _)]);
          [discriminate Hr | congruence].
      * destruct H_in as (_ & [(_ & -> & Hr)|(Hc & _)]); [|congruence].
        injection Hr as ->.
        destruct H_pw as (_ & [(Hp & -> & _)|[(Hp & p & -> & _)|(_ & _ & _ & _ & Hr)]]);
          [| |discriminate Hr]; simpl.
        -- split; [reflexivity|]. split; [reflexivity|].
           split; [|reflexivity]. intros u p [H|[]]; discriminate H.
        -- split; [reflexivity|]. split; [reflexivity|].
           split; [|congruence].
           intros u p' [H|[H|[]]]; discriminate H.
    + destruct H_pw as (_ & [(_ & _ & Hr)|[(_ & p & _ & Hr)|(Hp & p & e & -> & Hr)]]);
        try discriminate Hr.
      injection Hr as ->. simpl.
      split; [reflexivity|]. split; [reflexivity|].
      split; [|congruence]. intros u p' [H|[H|[]]]; discriminate H.
  - destruct H_cf as (_ & [(Hc & _)|[(_ & _ & _ & Hr)|(_ & Hfc & -> & Hr)]]);
      [congruence | discriminate Hr |].
    injection Hr as ->.
    split; [reflexivity|]. split.
    + rewrite remote_calls_app. unfold flag_complaints.
      destruct (len (username fl) =? 0);
        destruct ((len (password fl) =? 0) && (len (passin fl) =? 0));
        reflexivity.
    + split; [|congruence]. intros u p H. apply in_app_or in H.
      unfold flag_complaints in H.
      destruct (len (username fl) =? 0);
        destruct ((len (password fl) =? 0) && (len (passin fl) =? 0));
        simpl in H; intuition discriminate.
Qed.

Lemma main_client :
  sat (main svc fl)
      (fun evs _ =>
         forall u p, In (EvNewClient u p) evs ->
           u = username fl /\
           ((password fl <> EmptyString /\ p = password fl) \/
            (password fl = EmptyString /\
             In (EvGetpass (passin fl) (p, None)) evs))).
Proof.
  shape_run; intros u p Hin; locate Hin.
  all: try solve
    [ exfalso;
      destruct H_cf as (_ & [(_ & -> & _)|[(_ & _ & -> & _)|(_ & _ & -> & _)]]);
      unfold flag_complaints in Hin;
      try (destruct (len (username fl) =? 0);
           destruct ((len (password fl) =? 0) && (len (passin fl) =? 0)));
      in_false Hin ].
  all: try solve
    [ exfalso;
      destruct H_pw
        as (_ & [(_ & -> & _)|[(_ & ? & -> & _)|(_ & ? & ? & -> & _)]]);
      in_false Hin ].
  all: try solve
    [ exfalso;
      destruct H_in as (_ & [(_ & -> & _)|(_ & -> & _)]);
      in_false Hin ].
  all: destruct H_nc as (_ & -> & _);
    assert (Hup : u = username fl /\ p = a0)
      by (destruct (verbose fl); simpl in Hin;
          (destruct Hin as [Hin|Hin];
           [ injection Hin; auto
           | try (destruct Hin as [Hin|[]]; discriminate Hin);
             try (destruct Hin) ]));
    destruct Hup as [-> ->]; (split; [reflexivity|]);
    destruct H_pw as (_ & [(Hp & _ & Hr)|[(Hp & p' & -> & Hr)|(_ & _ & _ & _ & Hr)]]);
    try discriminate Hr; injection Hr as ->.
  all: try solve [left; auto].
  all: right; (split; [exact Hp|]);
    apply in_or_app; right; apply in_or_app; left; left; reflexivity.
Qed.

Lemma main_terms :
  sat (main svc fl)
      (fun evs r =>
         (printTerms fl = false /\
          calls_of 2 evs = [] /\ printed 2 evs = []) \/
         (printTerms fl = true /\
          calls_of 2 evs = [] /\ printed 2 evs = [] /\ r <> Ok tt) \/
         (printTerms fl = true /\
          exists t,
            calls_of 2 evs = [EvGetTerms (t, None)] /\
            printed 2 evs
            = [OutTermsHeader; OutTermsContent (Content t)]) \/
         (printTerms fl = true /\
          exists t e,
            calls_of 2 evs = [EvGetTerms (t, Some e)] /\
            printed 2 evs = [] /\
            r = Exit 1 /\
            remote_calls evs
            = [EvAuthenticate None; EvGetTerms (t, Some e)])).
Proof.
  shape_run; drop_stages.
  all: try solve [destruct (printTerms fl); [right; left | left];
                  repeat split; discriminate].
  all: destruct H_tm
    as (_ & [(Hp & -> & Hr)|[(Hp & t & -> & Hr)|(Hp & t & e & -> & Hr)]]);
    try discriminate Hr; no_vlog.
  all: try solve [left; split; [exact Hp | split; reflexivity]].
  all: try solve [right; right; left; split; [exact Hp|];
                  exists t; split; reflexivity].
  right. right. right. split; [exact Hp|]. exists t, e.
  destruct H_au as (_ & [e'|] & -> & Hr'); [discriminate Hr'|].
  no_vlog. injection Hr as ->. repeat split.
Qed.

Lemma main_status :
  sat (main svc fl)
      (fun evs r =>
         (status fl = false /\
          calls_of 3 evs = [] /\ printed 3 evs = []) \/
         (status fl = true /\
          calls_of 3 evs = [] /\ printed 3 evs = [] /\ r <> Ok tt) \/
         (status fl = true /\
          exists l,
            calls_of 3 evs = [EvGetTLDStatus (l, None)] /\
            printed 3 evs = map status_line l) \/
         (status fl = true /\
          exists l e,
            calls_of 3 evs = [EvGetTLDStatus (l, Some e)] /\
            printed 3 evs = [] /\ r = Exit 1)).
Proof.
  shape_run; drop_stages.
  all: try solve [destruct (status fl); [right; left | left];
                  repeat split; discriminate].
  all: destruct H_st
    as (_ & [(Hp & -> & Hr)|[(Hp & l & -> & Hr)|(Hp & l & e & -> & Hr)]]);
    try discriminate Hr.
  all: try solve [left; split; [exact Hp | split; reflexivity]].
  all: try solve [right; right; left; split; [exact Hp|]; exists l;
                  change (EvGetTLDStatus (l, None) ::
                          map (fun t => EvPrint (status_line t)) l)
                    with ([EvGetTLDStatus (l, None)] ++
                          map (fun t => EvPrint (status_line t)) l);
                  rewrite remote_calls_app, printed_app,
                    (proj2 (status_lines_quiet l)), status_lines_printed;
                  split; reflexivity].
  right. right. right. split; [exact Hp|].
  exists l, e. injection Hr as ->. repeat split.
Qed.

Lemma main_request_bulk :
  requestAll fl = true ->
  sat (main svc fl)
      (fun evs r =>
         (calls_of 4 evs = [] /\ printed 4 evs = [] /\ r <> Ok tt) \/
         (exists l,
             calls_of 4 evs
             = [EvRequestAllTLDsExcept (reason fl) (excludeList fl)
                                       (l, None)] /\
             printed 4 evs
             = if 0 <? length l then [OutRequested l] else []) \/
         (exists l e,
             calls_of 4 evs
             = [EvRequestAllTLDsExcept (reason fl) (excludeList fl)
                                       (l, Some e)] /\
             printed 4 evs = [] /\ r = Exit 1)).
Proof.
  intros Hall.
  assert (Hdo : doRequest fl = true) by (unfold doRequest; now rewrite Hall).
  shape_run; drop_stages.
  all: try solve [left; repeat split; discriminate].
  all: destruct H_rq
    as (_ & [(Hd & _)
            |[(_ & _ & -> & Hr)
             |[(_ & _ & _ & l & a' & -> & Hr)|(_ & _ & Hb & _)]]]);
    try congruence; no_vlog.
  all: try solve [left; repeat split; discriminate].
  all: destruct a' as [e|]; try discriminate Hr.
  all: try solve [right; right; exists l, e; injection Hr as ->;
                  repeat split].
  all: right; left; exists l; destruct (0 <? length l); split; reflexivity.
Qed.

Lemma main_extend_bulk_calls :
  extendAll fl = true ->
  sat (main svc fl)
      (fun evs r =>
         (calls_of 5 evs = [] /\ printed 5 evs = [] /\ r <> Ok tt) \/
         (exists l,
             calls_of 5 evs
             = [EvExtendAllTLDsExcept (excludeList fl) (l, None)] /\
             printed 5 evs
             = if 0 <? length l then [OutExtended l] else []) \/
         (exists l e,
             calls_of 5 evs
             = [EvExtendAllTLDsExcept (excludeList fl) (l, Some e)] /\
             printed 5 evs = [] /\ r = Exit 1)).
Proof.
  intros Hall. shape_run; drop_stages.
  all: try solve [left; repeat split; discriminate].
  all: destruct H_ex as (_ & Hex); destruct (Hex Hall) as (l & a' & -> & Hr);
    no_vlog; destruct a' as [e|]; try discriminate Hr.
  all: try solve [right; right; exists l, e; injection Hr as ->;
                  repeat split].
  all: right; left; exists l; destruct (0 <? length l); split; reflexivity.
Qed.

Lemma main_cancel_report :
  sat (main svc fl)
      (fun evs r =>
         (printed 6 evs = [] /\ (doCancel fl = true -> r <> Ok tt)) \/
         (printed 6 evs
          = [OutCanceled (strings.Split (cancelTLDs fl) comma)] /\
          lookup_zones evs = strings.Split (cancelTLDs fl) comma /\
          (exists done,
              cancel_calls evs = flat_map cancelled_ok done /\
              map fst done = strings.Split (cancelTLDs fl) comma) /\
          r = Ok tt)).
Proof.
  shape_run; drop_stages.
  all: try solve [left; split; [reflexivity | intros _; discriminate]].
  all: destruct H_cn
    as (_ & [(Hd & -> & Hr)
            |[(Hd & Hp & Hz & (done & Hc & Hm) & Hr)|(Hd & Hp & Hr)]]);
    try discriminate Hr.
  all: try solve [left; split; [reflexivity | congruence]].
  all: try solve [left; split; [exact Hp | intros _; discriminate]].
  right. split; [exact Hp|].
  split; [|split; [|destruct a8; reflexivity]].
  - rewrite !lookup_zones_app.
    repeat match goal with
      | H : in_stage ?k ?e |- context [lookup_zones ?e] =>
          rewrite (@lookup_zones_other k e H) by discriminate
      end.
    exact Hz.
  - exists done. split; [|exact Hm]. drop_others. exact Hc.
Qed.

Lemma main_auth_once :
  sat (main svc fl) (fun evs _ => length (calls_of 1 evs) <= 1).
Proof.
  shape_run; drop_stages; try (simpl; lia).
  all: destruct H_au as (_ & a' & -> & _); no_vlog;
    destruct a'; simpl; lia.
Qed.

Lemma main_terms_once :
  sat (main svc fl) (fun evs _ => length (calls_of 2 evs) <= 1).
Proof.
  intros w.
  destruct (main_terms w)
    as [(_ & -> & _)|[(_ & -> & _)|[(_ & t & -> & _)|(_ & t & e & -> & _)]]];
    simpl; lia.
Qed.

Lemma main_status_once :
  sat (main svc fl) (fun evs _ => length (calls_of 3 evs) <= 1).
Proof.
  intros w.
  destruct (main_status w)
    as [(_ & -> & _)|[(_ & -> & _)|[(_ & t & -> & _)|(_ & t & e & -> & _)]]];
    simpl; lia.
Qed.

Lemma main_request_once :
  sat (main svc fl) (fun evs _ => length (calls_of 4 evs) <= 1).
Proof.
  shape_run; drop_stages; try (simpl; lia).
  all: destruct H_rq
    as (_ & [(_ & -> & _)
            |[(_ & _ & -> & _)
             |[(_ & _ & _ & l & a' & -> & _)|(_ & _ & _ & a' & -> & _)]]]);
    no_vlog; try (simpl; lia).
  all: destruct a'; try destruct (0 <? length l); simpl; lia.
Qed.

End MainShapes.

(** ** [strings.Split] after [strings.Join] *)

Lemma Split_no_sep (s : string) (c : ascii) :
  strings.Contains s c = false -> strings.Split s c = [s].
Proof.
  induction s as [|a r IH]; simpl; [reflexivity|].
  intros H. apply orb_false_elim in H. destruct H as [H1 H2].
  rewrite H1, (IH H2). reflexivity.
Qed.

Lemma Split_app_sep (x r : string) (c : ascii) :
  strings.Contains x c = false ->
  strings.Split (x ++ String c r) c = x :: strings.Split r c.
Proof.
  induction x as [|a x IH]; simpl.
  - intros _. now rewrite Ascii.eqb_refl.
  - intros H. apply orb_false_elim in H. destruct H as [H1 H2].
    rewrite H1, (IH H2). reflexivity.
Qed.

Lemma Split_Join (l : list string) (c : ascii) :
  l <> [] ->
  Forall (fun t => strings.Contains t c = false) l ->
  strings.Split (strings.Join l c) c = l.
Proof.
  induction l as [|x l IH]; [congruence|].
  intros _ H. inversion H as [|? ? Hx Hl]; subst.
  destruct l as [|y l].
  - simpl. now apply Split_no_sep.
  - change (strings.Join (x :: y :: l) c)
      with (x ++ String c (strings.Join (y :: l) c))%string.
    rewrite Split_app_sep by exact Hx.
    rewrite IH; [reflexivity | discriminate | exact Hl].
Qed.

(** * Further properties, X1 to X16 *)

(** X1.  With [-version] the program prints its version and exits with
    status 0; nothing else happens, whatever the other flags are. *)
Theorem version_flag_exits_first
        (W : Type) (svc : Service W) (fl : Flags) (w : W) :
  showVersion fl = true ->
  events (main svc fl w) = [EvPrint (OutVersion version)] /\
  result (main svc fl w) = Exit 0.
Proof. intros H. exact (@main_version W svc fl H w). Qed.

Lemma version_flag_exits_first_witness :
  showVersion MoreCases.version_and_more = true /\
  events (Stub.run Stub.all_good MoreCases.version_and_more)
  = [EvPrint (OutVersion version)] /\
  result (Stub.run Stub.all_good MoreCases.version_and_more) = Exit 0.
Proof.
  split; [reflexivity|].
  apply (@version_flag_exits_first
           nat (Stub.service Stub.all_good) MoreCases.version_and_more 0).
  reflexivity.
Defined.

(** X2.  When the user name is missing, or both the password and the
    password source are, [checkFlags] logs every complaint that applies (it
    does not stop at the first), prints the usage and exits with status 1;
    no collaborator is called. *)
Theorem missing_credentials_are_all_reported
        (W : Type) (svc : Service W) (fl : Flags) (w : W) :
  showVersion fl = false ->
  username fl = EmptyString \/
  (password fl = EmptyString /\ passin fl = EmptyString) ->
  events (main svc fl w) = flag_complaints fl ++ [EvPrintDefaults] /\
  flag_complaints fl <> [] /\
  result (main svc fl w) = Exit 1.
Proof.
  intros Hv Hbad. destruct (@main_flag_errors W svc fl Hv Hbad w) as [H1 H2].
  split; [exact H1|]. split; [exact (@flag_complaints_some fl Hbad) | exact H2].
Qed.

Lemma missing_credentials_are_all_reported_witness :
  showVersion MoreCases.no_credentials = false /\
  (username MoreCases.no_credentials = EmptyString \/
   (password MoreCases.no_credentials = EmptyString /\
    passin MoreCases.no_credentials = EmptyString)) /\
  events (Stub.run Stub.all_good MoreCases.no_credentials)
  = [EvLogPrintf "must pass username";
     EvLogPrintf "must pass either 'password' or 'passin'";
     EvPrintDefaults].
Proof.
  split; [reflexivity|]. split; [left; reflexivity|].
  exact (proj1 (@missing_credentials_are_all_reported
                  nat (Stub.service Stub.all_good) MoreCases.no_credentials 0
                  eq_refl (or_introl eq_refl))).
Defined.

(** X3.  Without a terms, status, request or extend intent (a cancel list
    does not count), the process exits with status 1 before the client is
    constructed and without any remote call; with valid credentials given
    on the command line its only event is the fatal line. *)
Theorem no_intent_is_fatal_before_client
        (W : Type) (svc : Service W) (fl : Flags) (w : W) :
  showVersion fl = false ->
  printTerms fl = false -> status fl = false ->
  requestAll fl = false -> requestTLDs fl = EmptyString ->
  extendAll fl = false -> extendTLDs fl = EmptyString ->
  result (main svc fl w) = Exit 1 /\
  remote_calls (events (main svc fl w)) = [] /\
  (forall u p, ~ In (EvNewClient u p) (events (main svc fl w))) /\
  (flag_complaints fl = [] -> password fl <> EmptyString ->
   events (main svc fl w) = [EvLogFatal "Nothing to do!"]).
Proof.
  intros Hv H1 H2 H3 H4 H5 H6.
  exact (@main_nothing_to_do W svc fl Hv (@no_intent fl H1 H2 H3 H4 H5 H6) w).
Qed.

Lemma no_intent_is_fatal_before_client_witness :
  showVersion MoreCases.cancel_only = false /\
  cancelTLDs MoreCases.cancel_only = "a,b" /\
  result (Stub.run Stub.all_good MoreCases.cancel_only) = Exit 1 /\
  events (Stub.run Stub.all_good MoreCases.cancel_only)
  = [EvLogFatal "Nothing to do!"].
Proof.
  split; [reflexivity|]. split; [reflexivity|].
  destruct (@no_intent_is_fatal_before_client
              nat (Stub.service Stub.all_good) MoreCases.cancel_only 0
              eq_refl eq_refl eq_refl eq_refl eq_refl eq_refl eq_refl)
    as (Hr & _ & _ & He).
  split; [exact Hr|]. apply He; [reflexivity | discriminate].
Defined.

(** X4.  The client is constructed with the user name of the command line
    and with the password of the command line when there is one, otherwise
    with the password that the password source returned without error. *)
Theorem client_gets_the_resolved_password
        (W : Type) (svc : Service W) (fl : Flags) (w : W) (u p : string) :
  In (EvNewClient u p) (events (main svc fl w)) ->
  u = username fl /\
  ((password fl <> EmptyString /\ p = password fl) \/
   (password fl = EmptyString /\
    In (EvGetpass (passin fl) (p, None)) (events (main svc fl w)))).
Proof. intros H. exact (@main_client W svc fl w u p H). Qed.

Lemma client_gets_the_resolved_password_witness :
  In (EvNewClient "user" "secret")
     (events (Stub.run Stub.all_good Cases.passin_only)) /\
  password Cases.passin_only = EmptyString /\
  "user" = username Cases.passin_only.
Proof.
  assert (H : In (EvNewClient "user" "secret")
                 (events (Stub.run Stub.all_good Cases.passin_only)))
    by (vm_compute; auto).
  split; [exact H|]. split; [reflexivity|].
  exact (proj1 (@client_gets_the_resolved_password
                  nat (Stub.service Stub.all_good) Cases.passin_only 0
                  _ _ H)).
Defined.

(** X5.  Nothing is retried: a run makes at most one authentication call,
    one terms call, one status call and one request call. *)
Theorem single_calls_are_never_repeated
        (W : Type) (svc : Service W) (fl : Flags) (w : W) (k : nat) :
  1 <= k <= 4 ->
  length (calls_of k (events (main svc fl w))) <= 1.
Proof.
  intros Hk.
  assert (Hc : k = 1 \/ k = 2 \/ k = 3 \/ k = 4) by lia.
  destruct Hc as [->|[->|[->| ->]]].
  - exact (@main_auth_once W svc fl w).
  - exact (@main_terms_once W svc fl w).
  - exact (@main_status_once W svc fl w).
  - exact (@main_request_once W svc fl w).
Qed.

Lemma single_calls_are_never_repeated_witness :
  1 <= 4 <= 4 /\
  length (calls_of 4 (events (Stub.run Stub.all_good Cases.everything))) <= 1.
Proof.
  split; [lia|].
  apply (@single_calls_are_never_repeated
           nat (Stub.service Stub.all_good) Cases.everything 0 4).
  lia.
Defined.

(** X6.  A remote call that returns an error is the last remote call of
    the run, and the process then exits with status 1: no workflow goes on
    after a failure, and a run that completes has had no failing call. *)
Theorem failed_call_ends_the_run
        (W : Type) (svc : Service W) (fl : Flags) (w : W)
        (pre post : list Event) (x : Event) :
  remote_calls (events (main svc fl w)) = pre ++ x :: post ->
  failed x = true ->
  post = [] /\ result (main svc fl w) = Exit 1.
Proof.
  intros Hl Hx. destruct (@main_tidy W svc fl w) as [_ Hf].
  destruct (@failures_end_split _ _ _ _ _ Hf Hl Hx) as [Hp Hc].
  split; [exact Hp|].
  destruct (result (main svc fl w)) as [a|c]; simpl in Hc; congruence.
Qed.

Lemma failed_call_ends_the_run_witness :
  remote_calls (events (Stub.run Cases.fail_b_x Cases.extend_abc))
  = [EvAuthenticate None; EvExtendTLD "a" None] ++
    EvExtendTLD "b" (Some "extend failed") :: [] /\
  failed (EvExtendTLD "b" (Some "extend failed")) = true /\
  result (Stub.run Cases.fail_b_x Cases.extend_abc) = Exit 1.
Proof.
  assert (H : remote_calls (events (Stub.run Cases.fail_b_x Cases.extend_abc))
              = [EvAuthenticate None; EvExtendTLD "a" None] ++
                EvExtendTLD "b" (Some "extend failed") :: [])
    by reflexivity.
  split; [exact H|]. split; [reflexivity|].
  exact (proj2 (@failed_call_ends_the_run
                  nat (Stub.service Cases.fail_b_x) Cases.extend_abc 0
                  _ _ _ H eq_refl)).
Defined.

(** X7.  The process never ends silently.  When it is ended before [main]
    returns, the last event is the fatal log line or the usage text, with
    exit status 1, or the version line, with exit status 0, and no such
    event comes earlier; a run in which [main] returns has none of them. *)
Theorem exit_is_always_announced
        (W : Type) (svc : Service W) (fl : Flags) (w : W) :
  match result (main svc fl w) with
  | Ok _ => Forall (fun e => exit_of e = None) (events (main svc fl w))
  | Exit c =>
      exists pre x,
        events (main svc fl w) = pre ++ [x] /\
        Forall (fun e => exit_of e = None) pre /\
        exit_of x = Some c
  end.
Proof.
  destruct (@main_tidy W svc fl w) as [Hw _].
  destruct (result (main svc fl w)) as [a|c]; simpl in Hw.
  - now apply well_ended_quiet.
  - now apply well_ended_last.
Qed.



(** X10.  With [-request-all] the only request call of a run is the bulk
    call, with the reason and the split exclusions: an explicit [-request]
    list given beside it is ignored.  What is reported as requested is the
    list the call returned, and nothing when that list is empty; when the
    call fails nothing is reported and the process exits with status 1. *)
Theorem bulk_request_reports_the_returned_list
        (W : Type) (svc : Service W) (fl : Flags) (w : W) :
  requestAll fl = true ->
  (calls_of 4 (events (main svc fl w)) = [] /\
   printed 4 (events (main svc fl w)) = [] /\
   result (main svc fl w) <> Ok tt) \/
  (exists l,
      calls_of 4 (events (main svc fl w))
      = [EvRequestAllTLDsExcept (reason fl)
           (strings.Split (exclude fl) comma) (l, None)] /\
      printed 4 (events (main svc fl w))
      = if 0 <? length l then [OutRequested l] else []) \/
  (exists l e,
      calls_of 4 (events (main svc fl w))
      = [EvRequestAllTLDsExcept (reason fl)
           (strings.Split (exclude fl) comma) (l, Some e)] /\
      printed 4 (events (main svc fl w)) = [] /\
      result (main svc fl w) = Exit 1).
Proof. intros H. exact (@main_request_bulk W svc fl H w). Qed.

Lemma bulk_request_reports_the_returned_list_witness :
  requestAll MoreCases.bulk_and_list = true /\
  requestTLDs MoreCases.bulk_and_list = "a,b" /\
  ((calls_of 4 (events (Stub.run Stub.all_good MoreCases.bulk_and_list)) = [] /\
    printed 4 (events (Stub.run Stub.all_good MoreCases.bulk_and_list)) = [] /\
    result (Stub.run Stub.all_good MoreCases.bulk_and_list) <> Ok tt) \/
   (exists l,
       calls_of 4 (events (Stub.run Stub.all_good MoreCases.bulk_and_list))
       = [EvRequestAllTLDsExcept (reason MoreCases.bulk_and_list)
            (strings.Split (exclude MoreCases.bulk_and_list) comma)
            (l, None)] /\
       printed 4 (events (Stub.run Stub.all_good MoreCases.bulk_and_list))
       = if 0 <? length l then [OutRequested l] else []) \/
   (exists l e,
       calls_of 4 (events (Stub.run Stub.all_good MoreCases.bulk_and_list))
       = [EvRequestAllTLDsExcept (reason MoreCases.bulk_and_list)
            (strings.Split (exclude MoreCases.bulk_and_list) comma)
            (l, Some e)] /\
       printed 4 (events (Stub.run Stub.all_good MoreCases.bulk_and_list))
       = [] /\
       result (Stub.run Stub.all_good MoreCases.bulk_and_list) = Exit 1)).
Proof.
  split; [reflexivity|]. split; [reflexivity|].
  apply (@bulk_request_reports_the_returned_list
           nat (Stub.service Stub.all_good) MoreCases.bulk_and_list 0).
  reflexivity.
Defined.

(** The run of that example: the explicit list a,b is not requested. *)
Example bulk_request_ignores_the_list :
  remote_calls (events (Stub.run Stub.all_good MoreCases.bulk_and_list))
  = [EvAuthenticate None;
     EvRequestAllTLDsExcept "r" ["x"; "y"] (["com"], None)].
Proof. reflexivity. Qed.

(** X11.  With [-extend-all] the only extend call of a run is the bulk
    call, with the split exclusions: an explicit [-extend] list given
    beside it is ignored.  What is reported as extended is the list the
    call returned, and nothing when that list is empty; when the call
    fails nothing is reported and the process exits with status 1. *)
Theorem bulk_extend_reports_the_returned_list
        (W : Type) (svc : Service W) (fl : Flags) (w : W) :
  extendAll fl = true ->
  (calls_of 5 (events (main svc fl w)) = [] /\
   printed 5 (events (main svc fl w)) = [] /\
   result (main svc fl w) <> Ok tt) \/
  (exists l,
      calls_of 5 (events (main svc fl w))
      = [EvExtendAllTLDsExcept (strings.Split (exclude fl) comma)
                               (l, None)] /\
      printed 5 (events (main svc fl w))
      = if 0 <? length l then [OutExtended l] else []) \/
  (exists l e,
      calls_of 5 (events (main svc fl w))
      = [EvExtendAllTLDsExcept (strings.Split (exclude fl) comma)
                               (l, Some e)] /\
      printed 5 (events (main svc fl w)) = [] /\
      result (main svc fl w) = Exit 1).
Proof. intros H. exact (@main_extend_bulk_calls W svc fl H w). Qed.

Lemma bulk_extend_reports_the_returned_list_witness :
  extendAll MoreCases.extend_bulk_and_list = true /\
  extendTLDs MoreCases.extend_bulk_and_list = "a,b" /\
  calls_of 5 (events (Stub.run Stub.all_good MoreCases.extend_bulk_and_list))
  = [EvExtendAllTLDsExcept [EmptyString] (["net"], None)] /\
  ((calls_of 5
      (events (Stub.run Stub.all_good MoreCases.extend_bulk_and_list)) = [] /\
    printed 5
      (events (Stub.run Stub.all_good MoreCases.extend_bulk_and_list)) = [] /\
    result (Stub.run Stub.all_good MoreCases.extend_bulk_and_list) <> Ok tt) \/
   (exists l,
       calls_of 5
         (events (Stub.run Stub.all_good MoreCases.extend_bulk_and_list))
       = [EvExtendAllTLDsExcept
            (strings.Split (exclude MoreCases.extend_bulk_and_list) comma)
            (l, None)] /\
       printed 5
         (events (Stub.run Stub.all_good MoreCases.extend_bulk_and_list))
       = if 0 <? length l then [OutExtended l] else []) \/
   (exists l e,
       calls_of 5
         (events (Stub.run Stub.all_good MoreCases.extend_bulk_and_list))
       = [EvExtendAllTLDsExcept
            (strings.Split (exclude MoreCases.extend_bulk_and_list) comma)
            (l, Some e)] /\
       printed 5
         (events (Stub.run Stub.all_good MoreCases.extend_bulk_and_list))
       = [] /\
       result (Stub.run Stub.all_good MoreCases.extend_bulk_and_list)
       = Exit 1)).
Proof.
  split; [reflexivity|]. split; [reflexivity|]. split; [reflexivity|].
  apply (@bulk_extend_reports_the_returned_list
           nat (Stub.service Stub.all_good) MoreCases.extend_bulk_and_list 0).
  reflexivity.
Defined.

(** X12.  The line of cancelled zones is printed only when the lookup and
    the cancel call of every zone of the list succeeded: the lookup and
    cancel calls of the run are then, for every zone of the split cancel
    list in order, a successful lookup followed by a successful cancel
    call with the identifier it returned, and nothing else; the line is
    that whole list, and [main] returns.  Otherwise nothing is reported as
    cancelled, and when the cancel workflow was due the process did not
    complete. *)
Theorem cancelled_list_is_reported_only_when_complete
        (W : Type) (svc : Service W) (fl : Flags) (w : W) :
  (printed 6 (events (main svc fl w)) = [] /\
   (doCancel fl = true -> result (main svc fl w) <> Ok tt)) \/
  (printed 6 (events (main svc fl w))
   = [OutCanceled (strings.Split (cancelTLDs fl) comma)] /\
   lookup_zones (events (main svc fl w))
   = strings.Split (cancelTLDs fl) comma /\
   (exists done,
       cancel_calls (events (main svc fl w)) = flat_map cancelled_ok done /\
       map fst done = strings.Split (cancelTLDs fl) comma) /\
   result (main svc fl w) = Ok tt).
Proof. exact (@main_cancel_report W svc fl w). Qed.

(** The cancel call of the second zone fails: nothing is reported. *)
Example cancel_failure_reports_nothing :
  cancel_calls (events (Stub.run MoreCases.fail_cancel_y Cases.cancel_xy))
  = cancelled_ok ("x", "id-x") ++
    [EvGetZoneRequestID "y" ("id-y", None);
     EvCancelRequest {| RequestID := "id-y"; TLDName := "y" |}
                     (Some "cancel failed")] /\
  printed 6 (events (Stub.run MoreCases.fail_cancel_y Cases.cancel_xy)) = [] /\
  result (Stub.run MoreCases.fail_cancel_y Cases.cancel_xy) = Exit 1.
Proof. vm_compute. repeat split. Qed.

(** X13.  Round trip of an explicit extend list: when [-extend] is the
    zones of a list joined by commas (no zone holding a comma) and [main]
    returns, the extend calls of the run are exactly those zones, in
    order and with their repetitions, each one successful, and the list
    reported as extended is that list. *)
Theorem completed_run_extended_the_given_zones
        (W : Type) (svc : Service W) (fl : Flags) (w : W)
        (zones : list string) :
  zones <> [] ->
  Forall (fun t => strings.Contains t comma = false) zones ->
  extendAll fl = false ->
  extendTLDs fl = strings.Join zones comma ->
  strings.Join zones comma <> EmptyString ->
  result (main svc fl w) = Ok tt ->
  extend_calls (events (main svc fl w)) = map (fun z => (z, None)) zones /\
  extended (events (main svc fl w)) = [zones].
Proof.
  intros Hne Hz Hall Hl Hs Hr.
  assert (Hdo : doExtend fl = true).
  { unfold doExtend. rewrite Hall, Hl. simpl.
    destruct (strings.Join zones comma); [congruence | reflexivity]. }
  destruct (@main_extend_explicit W svc fl Hall w)
    as (oks & tail & Hc & Hcase).
  rewrite Hl, (@Split_Join zones comma Hne Hz) in Hcase.
  destruct Hcase as [(_ & _ & _ & Hn)
                    |[(-> & -> & He)|(z & e & rest & _ & _ & _ & Hx)]].
  - elim (Hn Hdo Hr).
  - rewrite app_nil_r in Hc. auto.
  - congruence.
Qed.

Lemma completed_run_extended_the_given_zones_witness :
  ["a"; "b"; "a"] <> [] /\
  extendTLDs MoreCases.extend_aba = strings.Join ["a"; "b"; "a"] comma /\
  result (Stub.run Stub.all_good MoreCases.extend_aba) = Ok tt /\
  extend_calls (events (Stub.run Stub.all_good MoreCases.extend_aba))
  = [("a", None); ("b", None); ("a", None)] /\
  extended (events (Stub.run Stub.all_good MoreCases.extend_aba))
  = [["a"; "b"; "a"]].
Proof.
  split; [discriminate|]. split; [reflexivity|]. split; [reflexivity|].
  apply (@completed_run_extended_the_given_zones
           nat (Stub.service Stub.all_good) MoreCases.extend_aba 0
           ["a"; "b"; "a"]).
  - discriminate.
  - repeat constructor.
  - reflexivity.
  - reflexivity.
  - discriminate.
  - reflexivity.
Defined.

(** ** What [-verbose] changes *)

Section Verbose.
Variable W : Type.
Variable svc : Service W.

Lemma sbc_refl {A} (m : M W A) : same_but_chatter m m.
Proof. intros w. auto. Qed.

Lemma sbc_bind {A B} (m1 m2 : M W A) (f1 f2 : A -> M W B) :
  same_but_chatter m1 m2 ->
  (forall a, same_but_chatter (f1 a) (f2 a)) ->
  same_but_chatter (bind m1 f1) (bind m2 f2).
Proof.
  intros Hm Hf w. specialize (Hm w).
  unfold bind, events, result, final in *.
  destruct (m1 w) as [[e1 w1] r1], (m2 w) as [[e2 w2] r2]. simpl in Hm.
  destruct Hm as (He & -> & ->).
  destruct r2 as [a|c]; simpl; [|auto].
  specialize (Hf a w2).
  unfold events, final, result in Hf.
  destruct (f1 a w2) as [[e3 w3] r3], (f2 a w2) as [[e4 w4] r4].
  simpl in *. destruct Hf as (He' & -> & ->).
  unfold without_chatter in *. rewrite !filter_app, He, He'. auto.
Qed.

Lemma sbc_v fl1 fl2 msg : same_but_chatter (@v W fl1 msg) (@v W fl2 msg).
Proof.
  intros w. unfold v. destruct (verbose fl1), (verbose fl2); simpl; auto.
Qed.

Lemma sbc_set_logger :
  (forall w, SetLogger svc w = w) ->
  same_but_chatter (effect (SetLogger svc) EvSetLogger) (ret tt).
Proof.
  intros H w. unfold effect, ret, events, final, result. simpl.
  rewrite H. auto.
Qed.

Lemma sbc_extendLoop fl1 fl2 tlds : forall err,
  same_but_chatter (extendLoop svc fl1 tlds err)
                   (extendLoop svc fl2 tlds err).
Proof.
  induction tlds as [|tld rest IH]; intros err; simpl; [apply sbc_refl|].
  apply sbc_bind; [apply sbc_v | intros _].
  apply sbc_bind; [apply sbc_refl | intros [e|]]; [apply sbc_refl | apply IH].
Qed.

Lemma sbc_cancelLoop fl1 fl2 tlds : forall err,
  same_but_chatter (cancelLoop svc fl1 tlds err)
                   (cancelLoop svc fl2 tlds err).
Proof.
  induction tlds as [|tld rest IH]; intros err; simpl; [apply sbc_refl|].
  apply sbc_bind; [apply sbc_v | intros _].
  apply sbc_bind; [apply sbc_refl | intros [e|]]; [apply sbc_refl | apply IH].
Qed.

Ltac sbc_step :=
  match goal with
  | |- same_but_chatter (v _ _) (v _ _) => apply sbc_v
  | |- same_but_chatter (extendLoop _ _ _ _) _ => apply sbc_extendLoop
  | |- same_but_chatter (cancelLoop _ _ _ _) _ => apply sbc_cancelLoop
  | |- same_but_chatter (effect (SetLogger _) _) (ret tt) =>
      apply sbc_set_logger; assumption
  | |- same_but_chatter (bind _ _) (bind _ _) =>
      apply sbc_bind; [|intros ?]
  | |- same_but_chatter (if ?b then _ else _) (if ?b then _ else _) =>
      destruct b
  | |- same_but_chatter (match ?x with _ => _ end)
                        (match ?x with _ => _ end) =>
      destruct x
  | |- same_but_chatter ?m ?m => apply sbc_refl
  end.

Lemma main_verbose fl :
  (forall w, SetLogger svc w = w) ->
  same_but_chatter (main svc (set_verbose true fl))
                   (main svc (set_verbose false fl)).
Proof.
  intros Hlog.
  unfold main, checkFlags, getPassword, checkIntent, newClient, authenticate,
    termsBlock, statusBlock, requestBlock, extendBlock, cancelBlock,
    doRequest, doExtend, doCancel, excludeList.
  cbn [set_verbose username password passin verbose reason printTerms
       requestTLDs requestAll status extendTLDs extendAll exclude
       cancelTLDs showVersion].
  repeat sbc_step.
Qed.

End Verbose.

(** ** What is logged without [-verbose] *)

Section Calm.
Variable W : Type.
Variable svc : Service W.
Variable fl : Flags.
Hypothesis Hquiet : verbose fl = false.

Local Abbreviation all_calm :=
  (fun (evs : list Event) _ => Forall (calm fl) evs).

Lemma calm_bind {A B} (m : M W A) (f : A -> M W B) :
  sat m all_calm -> (forall a, sat (f a) all_calm) -> sat (bind m f) all_calm.
Proof.
  intros Hm Hf. apply sat_bind.
  eapply sat_conseq; [exact Hm|]. cbv beta. intros e1 r H.
  destruct r as [a|c]; [|exact H].
  eapply sat_conseq; [apply Hf|]. cbv beta. intros e2 r2 H2.
  apply Forall_app. now split.
Qed.

Lemma calm_v msg : sat (@v W fl msg) all_calm.
Proof. apply sat_v. unfold vlog. rewrite Hquiet. constructor. Qed.

Ltac calm_event :=
  repeat constructor; intros Hc;
  first
    [ discriminate Hc
    | unfold flag_complaints;
      repeat match goal with
        | H : ?c = true |- context [if ?c then _ else _] => rewrite H
        | H : ?c = false |- context [if ?c then _ else _] => rewrite H
        end;
      simpl; auto; apply in_or_app; right; simpl; auto ].

Ltac calm_step :=
  match goal with
  | |- sat (bind _ _) _ => apply calm_bind; [|intros ?]
  | |- sat (v _ _) _ => apply calm_v
  | |- sat (ret _) _ => apply sat_ret; constructor
  | |- sat (emit _) _ => apply sat_emit; calm_event
  | |- sat (fmt_Print _) _ => apply sat_emit; calm_event
  | |- sat (log_Printf _) _ => apply sat_emit; calm_event
  | |- sat (os_Exit _) _ => apply sat_exit; constructor
  | |- sat (log_Fatal _) _ => apply sat_fatal; calm_event
  | |- sat (call _ _) _ => apply sat_call; intros; calm_event
  | |- sat (effect _ (EvNewClient _ _)) _ => apply sat_effect; calm_event
  | |- sat (if ?b then _ else _) _ => destruct b eqn:?; try congruence
  | |- sat (match ?x with _ => _ end) _ => destruct x eqn:?
  end.

Lemma calm_printAll l : sat (@printAll W l) all_calm.
Proof.
  induction l as [|t l IH]; simpl; [repeat calm_step|].
  unfold printTLDStatus. apply calm_bind; [repeat calm_step | intros _].
  exact IH.
Qed.

Lemma calm_extendLoop tlds : forall err,
  sat (extendLoop svc fl tlds err) all_calm.
Proof.
  induction tlds as [|tld rest IH]; intros err; simpl; [repeat calm_step|].
  apply calm_bind; [apply calm_v | intros _].
  apply calm_bind; [repeat calm_step | intros [e|]];
    [repeat calm_step | apply IH].
Qed.

Lemma calm_cancelLoop tlds : forall err,
  sat (cancelLoop svc fl tlds err) all_calm.
Proof.
  induction tlds as [|tld rest IH]; intros err; simpl; [repeat calm_step|].
  apply calm_bind; [apply calm_v | intros _].
  apply calm_bind; [unfold cancelRequest; repeat calm_step | intros [e|]];
    [repeat calm_step | apply IH].
Qed.

Lemma main_calm : sat (main svc fl) all_calm.
Proof.
  unfold main, checkFlags, getPassword, checkIntent, newClient, authenticate,
    termsBlock, statusBlock, requestBlock, extendBlock, cancelBlock.
  repeat first
    [ apply calm_printAll | apply calm_extendLoop | apply calm_cancelLoop
    | calm_step ].
Qed.

End Calm.


(** X14.  [-verbose] only adds logging: when setting the client's logger
    does not change what the service does, the runs with and without
    [-verbose] make the same calls with the same results, print the same
    lines, end the same way and leave the same world; they differ by
    [log.Printf] lines and by the setting of the logger only. *)
Theorem verbose_only_adds_logging
        (W : Type) (svc : Service W) (fl : Flags) (w : W) :
  (forall w', SetLogger svc w' = w') ->
  without_chatter (events (main svc (set_verbose true fl) w))
  = without_chatter (events (main svc (set_verbose false fl) w)) /\
  final (main svc (set_verbose true fl) w)
  = final (main svc (set_verbose false fl) w) /\
  result (main svc (set_verbose true fl) w)
  = result (main svc (set_verbose false fl) w).
Proof. intros H. exact (@main_verbose W svc fl H w). Qed.

Lemma verbose_only_adds_logging_witness :
  (forall w', SetLogger (Stub.service Cases.fail_b_x) w' = w') /\
  without_chatter
    (events (main (Stub.service Cases.fail_b_x)
                  (set_verbose true Cases.cancel_xy) 0))
  = without_chatter
      (events (main (Stub.service Cases.fail_b_x)
                    (set_verbose false Cases.cancel_xy) 0)).
Proof.
  split; [intros w'; reflexivity|].
  apply (@verbose_only_adds_logging
           nat (Stub.service Cases.fail_b_x) Cases.cancel_xy 0).
  intros w'. reflexivity.
Defined.

(** What the verbose run of that example adds. *)
Example verbose_run_logs :
  filter chatter
    (events (main (Stub.service Cases.fail_b_x)
                  (set_verbose true Cases.cancel_xy) 0))
  = [EvSetLogger;
     EvLogPrintf
       "Authenticating to https://account-api.icann.org/api/authenticate";
     EvLogPrintf "Requesting extension e";
     EvLogPrintf "Requesting cancellation x"].
Proof. vm_compute. reflexivity. Qed.

(** X15.  Without [-verbose] the client's logger is never set, and the
    only [log.Printf] lines of a run are the complaints of [checkFlags]
    about missing credentials. *)
Theorem without_verbose_only_complaints_are_logged
        (W : Type) (svc : Service W) (fl : Flags) (w : W) (e : Event) :
  verbose fl = false ->
  In e (events (main svc fl w)) ->
  chatter e = true ->
  In e (flag_complaints fl).
Proof.
  intros Hv Hin Hc.
  pose proof (@main_calm W svc fl Hv w) as H. cbv beta in H.
  rewrite Forall_forall in H. exact (H e Hin Hc).
Qed.

Lemma without_verbose_only_complaints_are_logged_witness :
  verbose MoreCases.no_credentials = false /\
  In (EvLogPrintf "must pass username")
     (events (Stub.run Stub.all_good MoreCases.no_credentials)) /\
  chatter (EvLogPrintf "must pass username") = true /\
  In (EvLogPrintf "must pass username")
     (flag_complaints MoreCases.no_credentials).
Proof.
  assert (H : In (EvLogPrintf "must pass username")
                 (events (Stub.run Stub.all_good MoreCases.no_credentials)))
    by (vm_compute; auto).
  split; [reflexivity|]. split; [exact H|]. split; [reflexivity|].
  exact (@without_verbose_only_complaints_are_logged
           nat (Stub.service Stub.all_good) MoreCases.no_credentials 0
           _ eq_refl H eq_refl).
Defined.

(** X16.  When the cancel workflow is entered (the code enters it when the
    extend list is not empty, see [doCancel]), its calls are, for the zones
    of the cancel list in order, one successful lookup followed by the
    cancel call that carries the identifier the lookup returned; they end
    either with the list, or at the first zone whose lookup fails (no
    cancel call for it is made) or whose cancel call fails.  In both cases
    of failure nothing follows, the later zones are not attempted, and the
    process exits with status 1.  A whole run of [main] has these same
    calls, or none when the workflow was not entered or the run ended
    before it. *)
Theorem cancel_looks_up_then_cancels
        (W : Type) (svc : Service W) (fl : Flags) (w w' : W)
        (err : option error) :
  (doCancel fl = true ->
   exists done tail,
     cancel_calls (events (cancelBlock svc fl err w'))
     = flat_map cancelled_ok done ++ tail /\
     ((tail = [] /\
       map fst done = strings.Split (cancelTLDs fl) comma /\
       result (cancelBlock svc fl err w') = Ok tt) \/
      (exists z id e rest,
          (tail = [EvGetZoneRequestID z (id, Some e)] \/
           tail = [EvGetZoneRequestID z (id, None);
                   EvCancelRequest {| RequestID := id; TLDName := z |}
                                   (Some e)]) /\
          strings.Split (cancelTLDs fl) comma = map fst done ++ z :: rest /\
          result (cancelBlock svc fl err w') = Exit 1))) /\
  (exists done tail,
    cancel_calls (events (main svc fl w))
    = flat_map cancelled_ok done ++ tail /\
    ((tail = [] /\
      ((done = [] /\
        (doCancel fl = true -> result (main svc fl w) <> Ok tt)) \/
       (map fst done = strings.Split (cancelTLDs fl) comma /\
        result (main svc fl w) = Ok tt))) \/
     (exists z id e rest,
         (tail = [EvGetZoneRequestID z (id, Some e)] \/
          tail = [EvGetZoneRequestID z (id, None);
                  EvCancelRequest {| RequestID := id; TLDName := z |}
                                  (Some e)]) /\
         strings.Split (cancelTLDs fl) comma = map fst done ++ z :: rest /\
         result (main svc fl w) = Exit 1))).
Proof.
  split.
  - intros Hdo. exact (@cancelBlock_reached W svc fl err w' Hdo).
  - exact (@main_cancel W svc fl w).
Qed.

Lemma cancel_looks_up_then_cancels_witness :
  doCancel Cases.cancel_xy = true /\
  exists done tail,
    cancel_calls (events (cancelBlock (Stub.service Cases.fail_b_x)
                                      Cases.cancel_xy None 0))
    = flat_map cancelled_ok done ++ tail /\
    ((tail = [] /\
      map fst done = strings.Split (cancelTLDs Cases.cancel_xy) comma /\
      result (cancelBlock (Stub.service Cases.fail_b_x)
                          Cases.cancel_xy None 0) = Ok tt) \/
     (exists z id e rest,
         (tail = [EvGetZoneRequestID z (id, Some e)] \/
          tail = [EvGetZoneRequestID z (id, None);
                  EvCancelRequest {| RequestID := id; TLDName := z |}
                                  (Some e)]) /\
         strings.Split (cancelTLDs Cases.cancel_xy) comma
         = map fst done ++ z :: rest /\
         result (cancelBlock (Stub.service Cases.fail_b_x)
                             Cases.cancel_xy None 0) = Exit 1)).
Proof.
  split; [reflexivity|].
  apply (proj1 (@cancel_looks_up_then_cancels
                  nat (Stub.service Cases.fail_b_x) Cases.cancel_xy 0 0 None)).
  reflexivity.
Defined.

(** With [-extend e -cancel x,y] and the lookup of x failing, the lookup
    of x is the only call of the cancel workflow. *)
Example cancel_xy_lookup_fails :
  cancel_calls (events (Stub.run Cases.fail_b_x Cases.cancel_xy))
  = [EvGetZoneRequestID "x" ("id-x", Some "lookup failed")] /\
  result (Stub.run Cases.fail_b_x Cases.cancel_xy) = Exit 1.
Proof. vm_compute. split; reflexivity. Qed.
